(** * Hussar roulette ([bot/skills/roll.py]): model and verification

    A shallow embedding of the roulette skill of the bot: the per-chat
    barrel kept in [context.chat_data], the process-wide [barrel_lock],
    the mute calculator, the [hussars] Mongo collection behind class [DB]
    and the [roll] handler that ties them together.

    Python integers are unbounded, hence [Z]; a Python [dict] is a [gmap];
    a Python [list] is a [list] with the interpreter's index rules written
    out (negative indices count from the end, anything else out of range
    raises [IndexError]). *)

From Stdlib Require Import ZArith Lia.
From stdpp Require Import base gmap strings list fin_maps pretty sorting.

Local Open Scope Z_scope.

(** ** Module constants *)

(** [MUTE_MINUTES] and [NUM_BULLETS] are module-level constants of the
    source.  The functions below read them through this class, so that the
    statements about the cylinder can be made for every chamber count; the
    values of the source are [roll_settings]. *)
Class Settings := {
  MUTE_MINUTES : Z;
  NUM_BULLETS : Z;
}.

Definition roll_settings : Settings :=
  {| MUTE_MINUTES := 16 * 60; (* 16h *)
     NUM_BULLETS := 6 |}.

(** ** Python lists *)

Module Py.

Definition len {A} (l : list A) : Z := Z.of_nat (length l).

(** [[x] * n]: a non-positive [n] gives the empty list. *)
Definition repeat {A} (x : A) (n : Z) : list A := replicate (Z.to_nat n) x.

(** Position denoted by index [i] in a list of length [n]. *)
Definition position (n i : Z) : option nat :=
  if (0 <=? i) && (i <? n) then Some (Z.to_nat i)
  else if (- n <=? i) && (i <? 0) then Some (Z.to_nat (n + i))
  else None.

(** [l[i]] *)
Definition getitem {A} (l : list A) (i : Z) : option A :=
  k ← position (len l) i; l !! k.

(** [l[i] = x] *)
Definition setitem {A} (l : list A) (i : Z) (x : A) : option (list A) :=
  k ← position (len l) i; Some (<[k:=x]> l).

(** [l.pop()]: the last element and the list that is left. *)
Definition pop {A} (l : list A) : option (A * list A) :=
  x ← last l; Some (x, removelast l).

(** ["".join(l)] *)
Definition join (l : list string) : string := String.concat "" l.

End Py.

(** ** The world the handlers run in *)

Inductive Exn :=
  | IndexError          (* list index or pop out of range *)
  | ValueError          (* randint on an empty range *)
  | RuntimeError        (* release of an unlocked lock *)
  | DuplicateKeyError.  (* insert_one on an existing _id *)

(** How a call ends: normally, by an exception, or not at all because it
    waits for a lock that is held. *)
Inductive Result (A : Type) :=
  | Ok (a : A)
  | Raise (e : Exn)
  | Blocked.
Arguments Ok {A} a.
Arguments Raise {A} e.
Arguments Blocked {A}.

(** Hussar document; [_id] is the key of the collection. *)
Record Hussar := mkHussar {
  meta : gmap string string;   (* full tg user object (just in case) *)
  shot_counter : Z;            (* full amount of shots *)
  miss_counter : Z;            (* amount of miss *)
  dead_counter : Z;            (* amount of dead shots *)
  total_time_in_club : Z;      (* all time in the club *)
  first_shot : Z;              (* time of first shot *)
  last_shot : Z;               (* time of last shot *)
}.

Record User := mkUser {
  user_id : Z;
  full_name : string;
  to_dict : gmap string string;
}.

Record Update := mkUpdate {
  effective_user : User;
  effective_chat_id : Z;
}.

(** What the handler asks of the bot. *)
Inductive Effect :=
  | SendMessage (chat_id : Z) (text : string)
  | MuteUser (chat_id : Z) (uid : Z) (minutes : Z).

Record World := mkWorld {
  chat_data : gmap string (list bool);  (* context.chat_data of the chat *)
  hussars : gmap Z Hussar;              (* _db._coll *)
  barrel_lock : bool;                   (* true when held *)
  dice : nat → Z;                       (* entropy behind random.randint *)
  drawn : nat;                          (* how many draws were made *)
  clock : nat → Z;                      (* readings of datetime.now() *)
  ticks : nat;                          (* how many readings were taken *)
  outbox : list Effect;                 (* requests to the bot, in order *)
}.

Definition with_chat_data (cd : gmap string (list bool)) (w : World) : World :=
  mkWorld cd (hussars w) (barrel_lock w) (dice w) (drawn w) (clock w) (ticks w) (outbox w).
Definition with_hussars (hs : gmap Z Hussar) (w : World) : World :=
  mkWorld (chat_data w) hs (barrel_lock w) (dice w) (drawn w) (clock w) (ticks w) (outbox w).
Definition with_barrel_lock (b : bool) (w : World) : World :=
  mkWorld (chat_data w) (hussars w) b (dice w) (drawn w) (clock w) (ticks w) (outbox w).
Definition with_drawn (n : nat) (w : World) : World :=
  mkWorld (chat_data w) (hussars w) (barrel_lock w) (dice w) n (clock w) (ticks w) (outbox w).
Definition with_ticks (n : nat) (w : World) : World :=
  mkWorld (chat_data w) (hussars w) (barrel_lock w) (dice w) (drawn w) (clock w) n (outbox w).
Definition with_outbox (o : list Effect) (w : World) : World :=
  mkWorld (chat_data w) (hussars w) (barrel_lock w) (dice w) (drawn w) (clock w) (ticks w) o.

(** State and exception monad over [World]. *)
Definition M (A : Type) : Type := World → Result A * World.

Global Instance M_ret : MRet M := λ A a w, (Ok a, w).
Global Instance M_bind : MBind M := λ A B f m w,
  match m w with
  | (Ok a, w') => f a w'
  | (Raise e, w') => (Raise e, w')
  | (Blocked, w') => (Blocked, w')
  end.

Definition raise {A} (e : Exn) : M A := λ w, (Raise e, w).
Definition gets {A} (f : World → A) : M A := λ w, (Ok (f w), w).
Definition modify (f : World → World) : M unit := λ w, (Ok (), f w).

(** A call that touches nothing of the world and ends as [r]. *)
Definition returns {A} (r : Result A) : M A := λ w, (r, w).

(** A list operation that raises [IndexError] when it has no result. *)
Definition indexed {A} (o : option A) : M A :=
  match o with Some a => mret a | None => raise IndexError end.

(** [random.randint(a, b)]: some integer of [[a, b]], here the next value
    of the entropy source folded into the range. *)
Definition randint (a b : Z) : M Z := λ w,
  if b <? a then (Raise ValueError, w)
  else (Ok (a + dice w (drawn w) `mod` (b - a + 1)), with_drawn (S (drawn w)) w).

(** [datetime.now()] *)
Definition datetime_now : M Z := λ w,
  (Ok (clock w (ticks w)), with_ticks (S (ticks w)) w).

(** [barrel_lock.acquire()] and [barrel_lock.release()] *)
Definition acquire : M unit := λ w,
  if barrel_lock w then (Blocked, w) else (Ok (), with_barrel_lock true w).
Definition release : M unit := λ w,
  if barrel_lock w then (Ok (), with_barrel_lock false w) else (Raise RuntimeError, w).

(** ** The revolver *)

Section Revolver.
Context `{Settings}.

(** [context.chat_data["barrel"] = barrel] *)
Definition store_barrel (barrel : list bool) : M unit :=
  modify (λ w, with_chat_data (<["barrel":=barrel]> (chat_data w)) w).

Definition _reload : M (list bool) :=
  let empty := false in
  let bullet := true in
  let barrel := Py.repeat empty NUM_BULLETS in
  lucky_number ← randint 0 (NUM_BULLETS - 1);
  barrel ← indexed (Py.setitem barrel lucky_number bullet);
  store_barrel barrel;;
  mret barrel.

Definition get_mute_minutes (shots_remain : Z) : Z :=
  MUTE_MINUTES * (NUM_BULLETS - shots_remain).

(** [_shot] is [barrel_lock.acquire()] followed by [_shot_holding], the
    rest of its body, which runs with the lock held; a thread inside
    [_shot] is at one of these two points.

    The local [barrel] and [chat_data["barrel"]] name one list object, so
    [barrel.pop()] already shortens the stored list and the assignment
    after it stores the same object again; nothing reads the dictionary
    in between, and the model performs both at the assignment. *)
Definition _shot_holding : M (bool * Z) :=
  stored ← gets (λ w, chat_data w !! "barrel");
  barrel ← match stored with
           | None => _reload
           | Some barrel => if Py.len barrel =? 0 then _reload else mret barrel
           end;
  '(fate, barrel) ← indexed (Py.pop barrel);
  store_barrel barrel;;
  let shots_remained := Py.len barrel in (* number before reload *)
  (if fate : bool then _reload;; mret () else mret ());;
  release;;
  mret (fate, shots_remained).

Definition _shot : M (bool * Z) :=
  acquire;;
  _shot_holding.

End Revolver.

(** ** Narration *)

Section Narration.
Context `{Settings}.

(** The f-string evaluates [S[...]] first; an index outside the list
    raises before anything is built. *)
Definition get_miss_string (shots_remain : Z) : Result string :=
  let S := ["😕"; "😟"; "😥"; "😫"; "😱"] in
  let misses := Py.repeat "🔘" (NUM_BULLETS - shots_remain) in
  let chances := Py.repeat "⚪️" shots_remain in
  let barrel_str := Py.join (misses ++ chances) in
  let h := get_mute_minutes (shots_remain - 1) `div` 60 in
  match Py.getitem S (NUM_BULLETS - shots_remain - 1) with
  | Some mood =>
      Ok (mood +:+ "🔫 MISS! Barrel: " +:+ barrel_str +:+ ", " +:+ pretty h +:+ "h")
  | None => Raise IndexError
  end.

End Narration.

(** ** The hussars collection *)

(** Order of the leader board: [a] comes before [b] when [a] has spent at
    least as long in the club. *)
Definition longer_in_club (a b : Z * Hussar) : Prop :=
  total_time_in_club b.2 ≤ total_time_in_club a.2.
Global Instance longer_in_club_dec : RelDecision longer_in_club :=
  λ a b, Z_le_dec (total_time_in_club b.2) (total_time_in_club a.2).

Module DB.

(** [find({}).sort("total_time_in_club", pymongo.DESCENDING)]: every
    document, with its [_id], longest time in the club first.  The order
    among documents with equal times is the server's choice; the model
    fixes one and nothing below depends on which. *)
Definition find_all : M (list (Z * Hussar)) :=
  gets (λ w, merge_sort longer_in_club (map_to_list (hussars w))).

(** [find_one({"_id": user_id})] *)
Definition find (uid : Z) : M (option Hussar) :=
  gets (λ w, hussars w !! uid).

(** [insert_one]: a second document with the same [_id] is refused. *)
Definition insert_one (uid : Z) (doc : Hussar) : M unit := λ w,
  match hussars w !! uid with
  | Some _ => (Raise DuplicateKeyError, w)
  | None => (Ok (), with_hussars (<[uid:=doc]> (hussars w)) w)
  end.

(** [update_one({"_id": user_id}, ...)]: changes the matching document,
    and nothing when there is none (no upsert). *)
Definition update_one (uid : Z) (change : Hussar → Hussar) : M unit :=
  modify (λ w, with_hussars (alter change uid (hussars w)) w).

Definition add (user : User) : M unit :=
  now ← datetime_now;
  insert_one (user_id user)
    {| meta := to_dict user;
       shot_counter := 0;
       miss_counter := 0;
       dead_counter := 0;
       total_time_in_club := 0; (* timedelta().seconds *)
       first_shot := now;
       last_shot := now |}.

Definition dead (uid : Z) (mute_min : Z) : M unit :=
  now ← datetime_now;
  update_one uid (λ h,
    {| meta := meta h;
       shot_counter := shot_counter h + 1;
       miss_counter := miss_counter h;
       dead_counter := dead_counter h + 1;
       total_time_in_club := total_time_in_club h + mute_min * 60;
       first_shot := first_shot h;
       last_shot := now |}).

Definition miss (uid : Z) : M unit :=
  now ← datetime_now;
  update_one uid (λ h,
    {| meta := meta h;
       shot_counter := shot_counter h + 1;
       miss_counter := miss_counter h + 1;
       dead_counter := dead_counter h;
       total_time_in_club := total_time_in_club h;
       first_shot := first_shot h;
       last_shot := now |}).

(** [delete_one({"_id": user_id})] *)
Definition remove (uid : Z) : M unit :=
  modify (λ w, with_hussars (delete uid (hussars w)) w).


End DB.

(** ** The handler *)

(** [context.bot.send_message(chat_id, text)] *)
Definition send_message (chat_id : Z) (text : string) : M unit :=
  modify (λ w, with_outbox (outbox w ++ [SendMessage chat_id text]) w).

(** Modelled from the spec: [skills.mute.mute_user_for_time] is imported by
    the source and defined elsewhere.  Following the interface section of
    the specification it is the directive "mute this player for
    [penaltyMinutes]" handed to the chat transport; the handler does not
    enforce the mute itself. *)
Definition mute_user_for_time (update : Update) (user : User) (minutes : Z) : M unit :=
  modify (λ w, with_outbox
    (outbox w ++ [MuteUser (effective_chat_id update) (user_id user) minutes]) w).

Section Handler.
Context `{Settings}.

(** Logging is left out: it changes nothing the handler can observe. *)
Definition roll (update : Update) : M unit :=
  let user := effective_user update in
  (* check if hussar already exist or create new one *)
  found ← DB.find (user_id user);
  (match found with Some _ => mret () | None => DB.add user end);;
  '(is_shot, shots_remained) ← _shot;
  if is_shot : bool then
    let mute_min := get_mute_minutes shots_remained in
    send_message (effective_chat_id update)
      ("💥 boom! " +:+ full_name user +:+ " 😵 [" +:+ pretty (mute_min `div` 60) +:+ "h mute]");;
    mute_user_for_time update user mute_min;;
    DB.dead (user_id user) mute_min
  else
    (* lucky one *)
    DB.miss (user_id user);;
    narration ← returns (get_miss_string shots_remained);
    send_message (effective_chat_id update) (full_name user +:+ ": " +:+ narration).

End Handler.




(** ** Names on the leader board *)

(** Python's truth value of [m.get(key)]: [None] and the empty string are
    false. *)
Definition truthy (o : option string) : bool :=
  match o with
  | Some s => negb (String.eqb s "")
  | None => false
  end.

(** Get username or fullname or unknown *)
Definition _get_username (h : Hussar) : string :=
  let m := meta h in
  let username := m !! "username" in
  let fname := m !! "first_name" in
  let lname := m !! "last_name" in
  if truthy username then default "" username
  else
    let joined := String.concat " " (omap id [fname; lname]) in
    if String.eqb joined "" then "unknown" else joined.

(** ** Runs *)

Section Runs.
Context `{Settings}.

(** [k] calls of [_shot] in a row in one chat, results in order. *)
Fixpoint fires (k : nat) : M (list (bool * Z)) :=
  match k with
  | O => mret []
  | S k => r ← _shot; rs ← fires k; mret (r :: rs)
  end.

(** Chambers stored for the chat; none before the first shot. *)
Definition chambers (w : World) : list bool :=
  default [] (chat_data w !! "barrel").

(** Vocabulary for the statements: the index the next [_reload] draws in
    world [w], the barrel with the bullet at index [i], and the world a
    reload leaves. *)
Definition lucky (w : World) : Z := dice w (drawn w) `mod` NUM_BULLETS.
Definition cylinder (i : Z) : list bool :=
  <[Z.to_nat i:=true]> (replicate (Z.to_nat NUM_BULLETS) false).
Definition reloaded (w : World) : World :=
  with_chat_data (<["barrel":=cylinder (lucky w)]> (chat_data w))
    (with_drawn (S (drawn w)) w).

(** The guard at the head of [_shot], the world the pop happens in, and
    the world once [rest] has been stored back. *)
Definition needs_reload (w : World) : bool :=
  match chat_data w !! "barrel" with
  | None => true
  | Some barrel => Py.len barrel =? 0
  end.
Definition firing (w : World) : World :=
  if needs_reload w then reloaded w else w.
Definition popped (rest : list bool) (w : World) : World :=
  with_chat_data (<["barrel":=rest]> (chat_data w)) w.

(** Worlds a chat can be in between two shots: a new chat, a chat that
    was just reloaded, and whatever shots lead to from there. *)
Inductive reachable : World → Prop :=
  | reachable_new w :
      chat_data w !! "barrel" = None → barrel_lock w = false → reachable w
  | reachable_reload w :
      barrel_lock w = false → reachable (_reload w).2
  | reachable_shot w :
      reachable w → reachable (_shot w).2
  | reachable_elsewhere w w' :
      (* the rest of the handlers leaves barrel and lock alone *)
      reachable w → chat_data w' = chat_data w →
      barrel_lock w' = barrel_lock w → reachable w'.

(** [j] misses in a row as [_shot] reports them when the first of them
    fires from a barrel of [n] chambers. *)
Definition misses (n : Z) (j : nat) : list (bool * Z) :=
  (λ m, (false, n - Z.of_nat m)) <$> seq 1 j.

End Runs.

(** Loaded chambers of a barrel. *)
Definition loaded (barrel : list bool) : nat :=
  length (filter (λ chamber, chamber = true) barrel).

(** Between shots the lock is free and a stored barrel holds exactly one
    bullet in at most [NUM_BULLETS] chambers. *)
Definition armed `{Settings} (w : World) : Prop :=
  barrel_lock w = false ∧
  (chat_data w !! "barrel" = None ∨
   ∃ b, chat_data w !! "barrel" = Some b ∧
        loaded b = 1%nat ∧ Py.len b ≤ NUM_BULLETS).

(** ** Ledger histories *)

Inductive LedgerOp :=
  | Register (user : User)
  | RecordMiss (uid : Z)
  | RecordDeath (uid : Z) (mute_min : Z).

Definition ledger_op (op : LedgerOp) : M unit :=
  match op with
  | Register user => DB.add user
  | RecordMiss uid => DB.miss uid
  | RecordDeath uid mute_min => DB.dead uid mute_min
  end.

(** The world after a history of ledger calls; a call that raises leaves
    the world as it found it and the history goes on. *)
Definition ledger_run (ops : list LedgerOp) (w : World) : World :=
  foldl (λ w op, (ledger_op op w).2) w ops.

Definition balanced (h : Hussar) : Prop :=
  shot_counter h = miss_counter h + dead_counter h.
Definition ledger_balanced (hs : gmap Z Hussar) : Prop :=
  ∀ uid h, hs !! uid = Some h → balanced h.

(** ** The fire request as the specification words it *)

Record FireOutcome := mkFireOutcome {
  died : bool;
  penaltyMinutes : Z;
  remainingBefore : Z;
}.

Section GameService.
Context `{Settings}.

(** Written after the specification's GameService.fire, to compare [roll]
    with: ensure the player is in the ledger, registering when absent;
    fire; on a hit compute the penalty from [remainingBefore] and record
    the death; otherwise record the miss with penalty 0. *)
Definition GameService_fire (player : User) : M FireOutcome :=
  found ← DB.find (user_id player);
  (if found is None then DB.add player else mret ());;
  '(hit, remaining) ← _shot;
  if hit : bool then
    let penalty := get_mute_minutes remaining in
    DB.dead (user_id player) penalty;;
    mret (mkFireOutcome true penalty remaining)
  else
    DB.miss (user_id player);;
    mret (mkFireOutcome false 0 remaining).

End GameService.

(** The world once the head of [roll] has made sure the player has a
    document. *)
Definition ensured (user : User) (w : World) : World :=
  match hussars w !! user_id user with
  | Some _ => w
  | None => (DB.add user w).2
  end.

(** Mute directives among the requests to the bot. *)
Definition is_mute (e : Effect) : bool :=
  if e is MuteUser _ _ _ then true else false.
Definition mutes (o : list Effect) : list Effect :=
  filter (λ e, is_mute e = true) o.

(** ** Shots running side by side *)

(** Handlers run on a thread pool ([run_async]); each thread here makes
    one call of [_shot] for its chat.  [context.chat_data] is the
    dictionary the dispatcher keeps for the chat of the update; the lock,
    the entropy source and the collection are the process's. *)
Inductive Pc :=
  | Waiting                              (* at barrel_lock.acquire() *)
  | Holding                              (* acquired, rest of _shot ahead *)
  | Finished (r : Result (bool * Z)).    (* _shot is over *)

Record Process := mkProcess {
  shared : World;                              (* [chat_data] of it unused *)
  chats : gmap Z (gmap string (list bool));    (* dispatcher.chat_data *)
  threads : list (Z * Pc);                     (* chat id and position *)
}.

(** The world a thread of chat [c] sees, and the process after the thread
    has left world [w] behind. *)
Definition enter (c : Z) (p : Process) : World :=
  with_chat_data (default ∅ (chats p !! c)) (shared p).
Definition leave (c : Z) (i : nat) (pc : Pc) (w : World) (p : Process) : Process :=
  mkProcess w (<[c:=chat_data w]> (chats p)) (<[i:=(c, pc)]> (threads p)).

Section Threads.
Context `{Settings}.

(** One move of thread [i]; [None] when it cannot move. *)
Definition step_thread (i : nat) (p : Process) : option Process :=
  match threads p !! i with
  | Some (c, Waiting) =>
      match acquire (enter c p) with
      | (Ok _, w) => Some (leave c i Holding w p)
      | (Raise e, w) => Some (leave c i (Finished (Raise e)) w p)
      | (Blocked, _) => None
      end
  | Some (c, Holding) =>
      let '(r, w) := _shot_holding (enter c p) in
      Some (leave c i (Finished r) w p)
  | _ => None
  end.

Inductive step : Process → Process → Prop :=
  | step_of i p p' : step_thread i p = Some p' → step p p'.

End Threads.

(** Threads that hold the lock. *)
Definition is_holding (t : Z * Pc) : bool :=
  if t.2 is Holding then true else false.
Definition holding (ts : list (Z * Pc)) : nat :=
  length (filter (λ t, is_holding t = true) ts).

(** The lock is held exactly when one thread is past [acquire]. *)
Definition lock_counts (p : Process) : Prop :=
  holding (threads p) = Nat.b2n (barrel_lock (shared p)).

(** A process at start: the lock is free and every thread is about to
    call [_shot]. *)
Definition initial (p : Process) : Prop :=
  barrel_lock (shared p) = false ∧ Forall (λ t, t.2 = Waiting) (threads p).

(** ** Histories of updates *)


Section Serving.
Context `{Settings}.



End Serving.



(** Timestamps are in order under the clock of [w]: no document was first
    shot after it was last shot, or last shot after the next reading. *)
Definition timely (w : World) : Prop :=
  ∀ uid h, hussars w !! uid = Some h →
    first_shot h ≤ last_shot h ∧ last_shot h ≤ clock w (ticks w).

(** ** Shots one after another *)

Section Serial.
Context `{Settings}.

(** Both moves of thread [i] at once: its whole call of [_shot]. *)
Definition shoot (i : nat) (p : Process) : option Process :=
  p' ← step_thread i p; step_thread i p'.

(** The threads of [order] shooting one after another. *)
Definition shoot_in_order (order : list nat) (p : Process) : option Process :=
  foldl (λ o i, o ≫= shoot i) (Some p) order.

End Serial.

(** ** Sample worlds *)

(** A chat nobody has played in yet, an empty collection, the lock free,
    a die that always shows [d] and a clock that counts its readings. *)
Definition new_chat (d : Z) : World :=
  mkWorld ∅ ∅ false (λ _, d) 0 (λ n, Z.of_nat n) 0 [].

(** A player, and the world right after that player's registration. *)
Definition bob : User := mkUser 42 "bob" ∅.
Definition registered : World := (DB.add bob (new_chat 0)).2.


(** Two threads about to shoot, one in chat 1 and one in chat 2. *)
Definition two_chats : Process :=
  mkProcess (new_chat 0) ∅ [(1, Waiting); (2, Waiting)].

(** The same process once the thread of chat 1 has taken the lock. *)
Definition chat1_holds : Process :=
  mkProcess (with_barrel_lock true (new_chat 0)) {[1 := ∅]}
    [(1, Holding); (2, Waiting)].

(** * Proofs *)

(** ** Python lists *)

Lemma pop_snoc {A} (l : list A) (x : A) : Py.pop (l ++ [x]) = Some (x, l).
Proof.
  unfold Py.pop. rewrite last_snoc. simpl. by rewrite removelast_last.
Qed.

Lemma pop_nonempty {A} (l : list A) :
  l ≠ [] → ∃ rest x, l = rest ++ [x] ∧ Py.pop l = Some (x, rest).
Proof.
  intros Hl. apply last_is_Some in Hl as [x Hx].
  apply last_Some in Hx as [rest ->].
  exists rest, x. split; [done | apply pop_snoc].
Qed.

Lemma len_app {A} (l k : list A) : Py.len (l ++ k) = Py.len l + Py.len k.
Proof. unfold Py.len. rewrite length_app. lia. Qed.

Lemma len_nonneg {A} (l : list A) : 0 ≤ Py.len l.
Proof. unfold Py.len. lia. Qed.

Lemma len_zero {A} (l : list A) : (Py.len l =? 0) = true ↔ l = [].
Proof.
  unfold Py.len. rewrite Z.eqb_eq. destruct l; simpl; split; (done || lia).
Qed.

Lemma position_in_range (n i : Z) :
  0 ≤ i < n → Py.position n i = Some (Z.to_nat i).
Proof.
  intros Hi. unfold Py.position.
  by replace ((0 <=? i) && (i <? n)) with true by (symmetry; apply andb_true_iff; lia).
Qed.

(** ** Barrels *)

Lemma loaded_app (b c : list bool) : loaded (b ++ c) = (loaded b + loaded c)%nat.
Proof. unfold loaded. by rewrite filter_app, length_app. Qed.

Lemma loaded_replicate_false (n : nat) : loaded (replicate n false) = 0%nat.
Proof.
  unfold loaded. induction n as [|n IH]; [done|].
  simpl. by rewrite filter_cons_False.
Qed.

Lemma loaded_le_length (b : list bool) : (loaded b ≤ length b)%nat.
Proof. apply length_filter. Qed.

Section BarrelFacts.
Context `{Settings}.
Hypothesis chambers_exist : 1 ≤ NUM_BULLETS.

Lemma lucky_range (w : World) : 0 ≤ lucky w < NUM_BULLETS.
Proof. unfold lucky. apply Z.mod_pos_bound. lia. Qed.

(** A cylinder is empty chambers, the bullet, empty chambers. *)
Lemma cylinder_split (i : Z) :
  0 ≤ i < NUM_BULLETS →
  cylinder i =
    replicate (Z.to_nat i) false ++ true ::
    replicate (Z.to_nat (NUM_BULLETS - 1 - i)) false.
Proof.
  intros Hi. unfold cylinder. rewrite insert_replicate_lt by lia.
  do 3 f_equal. lia.
Qed.

Lemma cylinder_length (i : Z) : Py.len (cylinder i) = NUM_BULLETS.
Proof. unfold Py.len, cylinder. rewrite length_insert, length_replicate. lia. Qed.

Lemma cylinder_loaded (i : Z) : 0 ≤ i < NUM_BULLETS → loaded (cylinder i) = 1%nat.
Proof.
  intros Hi. rewrite cylinder_split by done.
  rewrite loaded_app, loaded_replicate_false.
  change (true :: ?l) with ([true] ++ l).
  by rewrite loaded_app, loaded_replicate_false.
Qed.

Lemma cylinder_lookup (i : Z) (k : nat) :
  0 ≤ i < NUM_BULLETS → (k < Z.to_nat NUM_BULLETS)%nat →
  cylinder i !! k = Some (bool_decide (k = Z.to_nat i)).
Proof.
  intros Hi Hk. unfold cylinder. case_bool_decide as Hki.
  - subst k. rewrite list_lookup_insert_eq; [done|]. by rewrite length_replicate.
  - rewrite list_lookup_insert_ne by done. by apply lookup_replicate_2.
Qed.

Lemma reload_run (w : World) : _reload w = (Ok (cylinder (lucky w)), reloaded w).
Proof.
  pose proof (lucky_range w) as Hl.
  unfold _reload, mbind, M_bind, randint.
  replace (NUM_BULLETS - 1 <? 0) with false by (symmetry; apply Z.ltb_ge; lia).
  replace (NUM_BULLETS - 1 - 0 + 1) with NUM_BULLETS by lia.
  rewrite Z.add_0_l. fold (lucky w).
  unfold Py.setitem, Py.repeat.
  replace (Py.len (replicate (Z.to_nat NUM_BULLETS) false)) with NUM_BULLETS
    by (unfold Py.len; rewrite length_replicate; lia).
  rewrite position_in_range by done. reflexivity.
Qed.

End BarrelFacts.

(** ** One shot *)

Section ShotFacts.
Context `{Settings}.
Hypothesis chambers_exist : 1 ≤ NUM_BULLETS.

(** A shot on a stored barrel that is not empty. *)
Lemma shot_stored (w : World) (rest : list bool) (fate : bool) :
  barrel_lock w = false →
  chat_data w !! "barrel" = Some (rest ++ [fate]) →
  _shot w =
    (Ok (fate, Py.len rest),
     if fate then reloaded (popped rest w) else popped rest w).
Proof.
  intros Hlock Hstored.
  assert (Hlen : (Py.len (rest ++ [fate]) =? 0) = false).
  { apply Z.eqb_neq. rewrite len_app. pose proof (len_nonneg rest).
    unfold Py.len at 2. simpl. lia. }
  destruct w as [cd hs lk dc dn ck tk ob]. simpl in *. subst lk.
  unfold _shot, acquire, _shot_holding, mbind, M_bind, gets. simpl.
  rewrite Hstored, Hlen. simpl. rewrite pop_snoc. simpl.
  destruct fate; simpl; [|done].
  rewrite reload_run by done. reflexivity.
Qed.

(** A shot that finds no barrel, or an empty one, is a shot on the
    reloaded world. *)
Lemma shot_reloads_first (w : World) :
  barrel_lock w = false → needs_reload w = true → _shot w = _shot (reloaded w).
Proof.
  intros Hlock Hneed.
  pose proof (lucky_range chambers_exist w) as Hl.
  pose proof (cylinder_length chambers_exist (lucky w)) as Hcl.
  assert (Hne : (Py.len (cylinder (lucky w)) =? 0) = false)
    by (apply Z.eqb_neq; lia).
  pose proof (reload_run chambers_exist) as Hreload.
  destruct w as [cd hs lk dc dn ck tk ob].
  unfold needs_reload in Hneed. simpl in *. subst lk.
  unfold _shot, acquire, _shot_holding, mbind, M_bind, gets. simpl.
  rewrite lookup_insert_eq, Hne.
  destruct (cd !! "barrel") as [b|] eqn:Hcd; [rewrite Hneed|];
    rewrite Hreload; unfold reloaded; simpl; reflexivity.
Qed.

Lemma firing_lock (w : World) : barrel_lock (firing w) = barrel_lock w.
Proof. unfold firing. by destruct (needs_reload w). Qed.

Lemma firing_loaded (w : World) : chambers (firing w) ≠ [].
Proof.
  unfold firing, needs_reload, chambers.
  destruct (chat_data w !! "barrel") as [b|] eqn:Hb.
  - destruct (Py.len b =? 0) eqn:Hz.
    + unfold reloaded. simpl. rewrite lookup_insert_eq. simpl.
      intros Hnil. pose proof (cylinder_length chambers_exist (lucky w)) as Hc.
      rewrite Hnil in Hc. unfold Py.len in Hc. simpl in Hc. lia.
    + rewrite Hb. simpl. intros ->. by rewrite (proj2 (len_zero [])) in Hz.
  - unfold reloaded. simpl. rewrite lookup_insert_eq. simpl.
    intros Hnil. pose proof (cylinder_length chambers_exist (lucky w)) as Hc.
    rewrite Hnil in Hc. unfold Py.len in Hc. simpl in Hc. lia.
Qed.

Lemma shot_firing (w : World) : barrel_lock w = false → _shot w = _shot (firing w).
Proof.
  intros Hlock. unfold firing. destruct (needs_reload w) eqn:Hneed; [|done].
  by apply shot_reloads_first.
Qed.

(** Every shot: the last chamber of the barrel in the firing world is
    taken, reported with the length of what is left, and a loaded one is
    followed by a reload. *)
Lemma shot_run (w : World) :
  barrel_lock w = false →
  ∃ rest fate,
    chambers (firing w) = rest ++ [fate] ∧
    _shot w =
      (Ok (fate, Py.len rest),
       if fate then reloaded (popped rest (firing w)) else popped rest (firing w)).
Proof.
  intros Hlock.
  destruct (pop_nonempty (chambers (firing w)) (firing_loaded w))
    as (rest & fate & Hsplit & _).
  exists rest, fate. split; [done|].
  rewrite shot_firing by done.
  apply shot_stored; [by rewrite firing_lock|].
  unfold chambers in Hsplit.
  destruct (chat_data (firing w) !! "barrel") as [b|]; simpl in Hsplit.
  - by rewrite Hsplit.
  - by destruct rest.
Qed.

End ShotFacts.

Section ShotConsequences.
Context `{Settings}.
Hypothesis chambers_exist : 1 ≤ NUM_BULLETS.

Lemma needs_reload_spec (w : World) :
  needs_reload w = true ↔
  chat_data w !! "barrel" = None ∨ chat_data w !! "barrel" = Some [].
Proof.
  unfold needs_reload. destruct (chat_data w !! "barrel") as [b|].
  - rewrite len_zero. split; [intros ->; by right | by intros [|[= ->]]].
  - split; [by left | done].
Qed.

Lemma firing_drawn (w : World) :
  drawn (firing w) = (drawn w + Nat.b2n (needs_reload w))%nat.
Proof. unfold firing. destruct (needs_reload w); simpl; lia. Qed.

Lemma firing_cylinder (w : World) :
  needs_reload w = true → chambers (firing w) = cylinder (lucky w).
Proof.
  intros Hneed. unfold firing, chambers. rewrite Hneed. simpl.
  by rewrite lookup_insert_eq.
Qed.

End ShotConsequences.

(** C1: whatever the chat's state, [_shot] takes exactly the last chamber
    of the barrel it fires from (the stored one, or a fresh cylinder when
    there is none or it is empty) and reports the number of chambers left
    after the pop.  A loaded chamber gives [true] and the stored barrel is
    replaced by a newly drawn full cylinder before the call returns; an
    empty chamber gives [false] and what is stored is the barrel minus that
    one chamber, with no draw made.  The lock is free again afterwards. *)
Theorem shot_takes_last_chamber `{Settings} (w : World) :
  1 ≤ NUM_BULLETS →
  barrel_lock w = false →
  ∃ rest fate w',
    chambers (firing w) = rest ++ [fate] ∧
    _shot w = (Ok (fate, Py.len rest), w') ∧
    barrel_lock w' = false ∧
    if fate
    then chat_data w' !! "barrel" = Some (cylinder (lucky (firing w))) ∧
         Py.len (chambers w') = NUM_BULLETS ∧
         drawn w' = S (drawn (firing w))
    else chat_data w' !! "barrel" = Some rest ∧
         drawn w' = drawn (firing w).
Proof.
  intros HN Hlock.
  destruct (shot_run HN w Hlock) as (rest & fate & Hsplit & Hshot).
  exists rest, fate. eexists. split; [done|]. split; [exact Hshot|].
  destruct fate; simpl.
  - rewrite firing_lock, lookup_insert_eq. repeat split; try done.
    unfold chambers. simpl. rewrite lookup_insert_eq. simpl.
    by apply cylinder_length.
  - by rewrite firing_lock, lookup_insert_eq.
Qed.

Lemma shot_takes_last_chamber_witness :
  1 ≤ @NUM_BULLETS roll_settings ∧
  barrel_lock (new_chat 3) = false ∧
  ∃ rest fate w',
    @chambers (@firing roll_settings (new_chat 3)) = rest ++ [fate] ∧
    @_shot roll_settings (new_chat 3) = (Ok (fate, Py.len rest), w') ∧
    barrel_lock w' = false ∧
    if fate
    then chat_data w' !! "barrel" =
           Some (@cylinder roll_settings
                   (@lucky roll_settings (@firing roll_settings (new_chat 3)))) ∧
         Py.len (chambers w') = @NUM_BULLETS roll_settings ∧
         drawn w' = S (drawn (@firing roll_settings (new_chat 3)))
    else chat_data w' !! "barrel" = Some rest ∧
         drawn w' = drawn (@firing roll_settings (new_chat 3)).
Proof.
  split; [simpl; lia|]. split; [reflexivity|].
  apply (@shot_takes_last_chamber roll_settings (new_chat 3));
    [simpl; lia | reflexivity].
Defined.

(** C2: a reload draws an index [i] of [[0, N)], builds a barrel of exactly
    [N] chambers in which chamber [i] is loaded and every other chamber is
    empty (so exactly one is loaded), and stores it for the chat.  Within
    [_shot] a reload happens before the pop exactly when the chat has no
    barrel or an empty one, and after the pop exactly when the chamber was
    loaded: these are the only draws the call makes. *)
Theorem reload_one_bullet `{Settings} (w : World) :
  1 ≤ NUM_BULLETS →
  barrel_lock w = false →
  (∃ i barrel w',
     i = lucky w ∧ 0 ≤ i < NUM_BULLETS ∧
     (0 ≤ dice w (drawn w) < NUM_BULLETS → i = dice w (drawn w)) ∧
     _reload w = (Ok barrel, w') ∧
     chat_data w' !! "barrel" = Some barrel ∧
     Py.len barrel = NUM_BULLETS ∧
     loaded barrel = 1%nat ∧
     ∀ k : nat, (k < Z.to_nat NUM_BULLETS)%nat →
       barrel !! k = Some (bool_decide (k = Z.to_nat i))) ∧
  (needs_reload w = true ↔
     chat_data w !! "barrel" = None ∨ chat_data w !! "barrel" = Some []) ∧
  (∃ fate remained w',
     _shot w = (Ok (fate, remained), w') ∧
     drawn w' = (drawn w + Nat.b2n (needs_reload w) + Nat.b2n fate)%nat ∧
     (needs_reload w = true → chambers (firing w) = cylinder (lucky w)) ∧
     (needs_reload w = false → chambers (firing w) = chambers w) ∧
     (fate = true → chambers w' = cylinder (lucky (firing w))) ∧
     (fate = false → chambers w' = removelast (chambers (firing w)))).
Proof.
  intros HN Hlock. split; [|split].
  - exists (lucky w), (cylinder (lucky w)), (reloaded w).
    pose proof (lucky_range HN w) as Hl.
    split; [done|]. split; [done|]. split.
    { intros Hd. unfold lucky. by rewrite Z.mod_small. }
    split; [by apply reload_run|].
    split; [unfold reloaded; simpl; by rewrite lookup_insert_eq|].
    split; [by apply cylinder_length|].
    split; [by apply cylinder_loaded|].
    intros k Hk. by apply cylinder_lookup.
  - apply needs_reload_spec.
  - destruct (shot_run HN w Hlock) as (rest & fate & Hsplit & Hshot).
    exists fate, (Py.len rest). eexists. split; [exact Hshot|].
    split.
    { pose proof (firing_drawn w) as Hd. destruct fate; simpl in *; lia. }
    split; [apply firing_cylinder|].
    split; [intros Hno; unfold firing; by rewrite Hno|].
    split.
    + intros ->. unfold chambers. simpl. by rewrite lookup_insert_eq.
    + intros ->. unfold chambers at 1. simpl. rewrite lookup_insert_eq. simpl.
      by rewrite Hsplit, removelast_last.
Qed.

Lemma reload_one_bullet_witness :
  1 ≤ @NUM_BULLETS roll_settings ∧
  barrel_lock (new_chat 4) = false ∧
  (∃ i barrel w',
     i = @lucky roll_settings (new_chat 4) ∧
     0 ≤ i < @NUM_BULLETS roll_settings ∧
     (0 ≤ dice (new_chat 4) (drawn (new_chat 4)) < @NUM_BULLETS roll_settings →
      i = dice (new_chat 4) (drawn (new_chat 4))) ∧
     @_reload roll_settings (new_chat 4) = (Ok barrel, w') ∧
     chat_data w' !! "barrel" = Some barrel ∧
     Py.len barrel = @NUM_BULLETS roll_settings ∧
     loaded barrel = 1%nat ∧
     ∀ k : nat, (k < Z.to_nat (@NUM_BULLETS roll_settings))%nat →
       barrel !! k = Some (bool_decide (k = Z.to_nat i))).
Proof.
  split; [simpl; lia|]. split; [reflexivity|].
  apply (@reload_one_bullet roll_settings (new_chat 4));
    [simpl; lia | reflexivity].
Defined.

(** ** The mute calculator *)

(** C3: with [B = 960] minutes and [N = 6], for remaining counts
    [0 <= r <= r' < N] the mute is [B * (N - r)], it does not shrink when
    fewer chambers remain ([r <= r'] gives at least the mute of [r']), and
    at the ends it is [B = 960] for [N - 1] and [B * N = 5760] for [0].
    [get_mute_minutes] is a function of its argument alone and has a
    value everywhere. *)
Theorem mute_minutes_linear (r r' : Z) :
  0 ≤ r → r ≤ r' → r' < 6 →
  @MUTE_MINUTES roll_settings = 960 ∧
  @NUM_BULLETS roll_settings = 6 ∧
  @get_mute_minutes roll_settings r = 960 * (6 - r) ∧
  @get_mute_minutes roll_settings r' ≤ @get_mute_minutes roll_settings r ∧
  @get_mute_minutes roll_settings (6 - 1) = 960 ∧
  @get_mute_minutes roll_settings 0 = 960 * 6 ∧
  @get_mute_minutes roll_settings 0 = 5760.
Proof.
  intros H0 Hle Hlt. unfold get_mute_minutes. simpl. lia.
Qed.

Lemma mute_minutes_linear_witness :
  0 ≤ 2 ∧ 2 ≤ 4 ∧ 4 < 6 ∧
  @get_mute_minutes roll_settings 2 = 960 * (6 - 2) ∧
  @get_mute_minutes roll_settings 4 ≤ @get_mute_minutes roll_settings 2.
Proof.
  split; [lia|]. split; [lia|]. split; [lia|].
  destruct (mute_minutes_linear 2 4) as (_ & _ & Hval & Hmono & _); [lia..|].
  split; [exact Hval | exact Hmono].
Defined.

(** ** Runs of shots *)

Section RunFacts.
Context `{Settings}.
Hypothesis chambers_exist : 1 ≤ NUM_BULLETS.

(** [a + b] shots are [a] shots and then [b] shots. *)
Lemma fires_app (a b : nat) (w : World) :
  fires (a + b) w =
    match fires a w with
    | (Ok ra, wa) =>
        match fires b wa with
        | (Ok rb, wb) => (Ok (ra ++ rb), wb)
        | (Raise e, wb) => (Raise e, wb)
        | (Blocked, wb) => (Blocked, wb)
        end
    | (Raise e, wa) => (Raise e, wa)
    | (Blocked, wa) => (Blocked, wa)
    end.
Proof.
  revert w. induction a as [|a IH]; intros w; simpl.
  - unfold mret, M_ret. by destruct (fires b w) as [[rb|e|] wb].
  - unfold mbind, M_bind in *.
    destruct (_shot w) as [[r|e|] w1]; [|done..].
    rewrite IH. destruct (fires a w1) as [[ra|e|] wa]; [|done..].
    unfold mret, M_ret. simpl.
    by destruct (fires b wa) as [[rb|e|] wb].
Qed.

Lemma fires_one (w : World) :
  fires 1 w =
    match _shot w with
    | (Ok r, w') => (Ok [r], w')
    | (Raise e, w') => (Raise e, w')
    | (Blocked, w') => (Blocked, w')
    end.
Proof.
  simpl. unfold mbind, M_bind, mret, M_ret.
  by destruct (_shot w) as [[r|e|] w'].
Qed.

Lemma misses_S (n : Z) (j : nat) :
  misses n (S j) = (false, n - 1) :: misses (n - 1) j.
Proof.
  unfold misses. simpl. f_equal.
  rewrite <- fmap_S_seq, <- list_fmap_compose.
  apply list_fmap_ext. intros _ m _. simpl. f_equal. lia.
Qed.

Lemma misses_miss (n : Z) (j : nat) : Forall (λ r, r.1 = false) (misses n j).
Proof. unfold misses. apply Forall_fmap, Forall_true. done. Qed.

(** The barrel with [i] empty chambers, the bullet and [t] more empty
    chambers gives [j <= t] misses, each taking one of the [t]. *)
Lemma misses_run (i t j : nat) (w : World) :
  (j ≤ t)%nat →
  barrel_lock w = false →
  chat_data w !! "barrel" = Some (replicate i false ++ true :: replicate t false) →
  ∃ wj,
    fires j w = (Ok (misses (Z.of_nat (i + 1 + t)) j), wj) ∧
    barrel_lock wj = false ∧
    chat_data wj !! "barrel" =
      Some (replicate i false ++ true :: replicate (t - j) false) ∧
    drawn wj = drawn w.
Proof.
  revert t w. induction j as [|j IH]; intros t w Hj Hlock Hb.
  - exists w. rewrite Nat.sub_0_r. by simpl.
  - destruct t as [|t]; [lia|].
    assert (Hsnoc : replicate i false ++ true :: replicate (S t) false =
                    (replicate i false ++ true :: replicate t false) ++ [false]).
    { by rewrite replicate_S_end, app_comm_cons, app_assoc. }
    rewrite Hsnoc in Hb.
    pose proof (shot_stored chambers_exist w _ false Hlock Hb) as Hshot.
    destruct (IH t (popped (replicate i false ++ true :: replicate t false) w))
      as (wj & Hfires & Hlk & Hbj & Hdr).
    { lia. } { done. } { simpl. by rewrite lookup_insert_eq. }
    exists wj. split; [|done].
    simpl. unfold mbind, M_bind. rewrite Hshot, Hfires.
    unfold mret, M_ret. rewrite misses_S. do 3 f_equal.
    + f_equal. unfold Py.len. rewrite length_app, length_replicate. simpl.
      rewrite length_replicate. lia.
    + f_equal. lia.
Qed.

(** One shot more than there are empty chambers behind the bullet is
    the hit. *)
Lemma hit_run (i t : nat) (w : World) :
  barrel_lock w = false →
  chat_data w !! "barrel" = Some (replicate i false ++ true :: replicate t false) →
  ∃ w',
    fires (S t) w =
      (Ok (misses (Z.of_nat (i + 1 + t)) t ++ [(true, Z.of_nat i)]), w').
Proof.
  intros Hlock Hb.
  destruct (misses_run i t t w) as (wt & Hfires & Hlk & Hbt & _); [lia|done..|].
  rewrite Nat.sub_diag in Hbt. simpl in Hbt.
  pose proof (shot_stored chambers_exist wt _ true Hlk Hbt) as Hshot.
  eexists. replace (S t) with (t + 1)%nat by lia.
  rewrite fires_app, Hfires, fires_one, Hshot.
  do 5 f_equal. unfold Py.len. by rewrite length_replicate.
Qed.

(** A cycle from its reload: the shots before the one that meets the
    bullet are misses, that one is the hit. *)
Lemma cycle_run (w : World) :
  barrel_lock w = false →
  let i := Z.to_nat (lucky w) in
  let t := Z.to_nat (NUM_BULLETS - 1 - lucky w) in
  (∀ j, (j ≤ t)%nat →
     ∃ wj,
       fires j (reloaded w) = (Ok (misses NUM_BULLETS j), wj) ∧
       barrel_lock wj = false ∧
       chat_data wj !! "barrel" =
         Some (replicate i false ++ true :: replicate (t - j) false) ∧
       drawn wj = S (drawn w)) ∧
  ∃ w',
    fires (S t) (reloaded w) =
      (Ok (misses NUM_BULLETS t ++ [(true, lucky w)]), w').
Proof.
  intros Hlock i t.
  pose proof (lucky_range chambers_exist w) as Hl.
  assert (Hb : chat_data (reloaded w) !! "barrel" =
               Some (replicate i false ++ true :: replicate t false)).
  { unfold reloaded. simpl. rewrite lookup_insert_eq.
    by rewrite cylinder_split. }
  assert (HN : Z.of_nat (i + 1 + t) = NUM_BULLETS) by lia.
  split.
  - intros j Hj.
    destruct (misses_run i t j (reloaded w) Hj Hlock Hb) as (wj & ? & ? & ? & ?).
    exists wj. by rewrite <- HN.
  - destruct (hit_run i t (reloaded w) Hlock Hb) as (w' & Hfires).
    exists w'. rewrite Hfires, HN.
    by replace (Z.of_nat i) with (lucky w) by lia.
Qed.

End RunFacts.

(** C4: in every cycle, for every chamber count [N >= 1]: starting from a
    reload there is a shot number [k] with [1 <= k <= N] such that the
    shots before the [k]-th are all misses, each leaving exactly one
    chamber fewer ([N - j] after [j] of them, never zero, the bullet still
    among them, and no reload in between), and the [k]-th shot is the hit.
    The barrel is never emptied without a hit. *)
Theorem cycle_ends_with_hit `{Settings} (w : World) :
  1 ≤ NUM_BULLETS →
  barrel_lock w = false →
  ∃ k : nat,
    (1 ≤ k)%nat ∧ Z.of_nat k ≤ NUM_BULLETS ∧
    (∀ j, (j < k)%nat →
       ∃ wj,
         fires j (_reload w).2 = (Ok (misses NUM_BULLETS j), wj) ∧
         Py.len (chambers wj) = NUM_BULLETS - Z.of_nat j ∧
         0 < Py.len (chambers wj) ∧
         loaded (chambers wj) = 1%nat ∧
         drawn wj = drawn (_reload w).2) ∧
    ∃ w',
      fires k (_reload w).2 =
        (Ok (misses NUM_BULLETS (k - 1) ++ [(true, NUM_BULLETS - Z.of_nat k)]), w').
Proof.
  intros HN Hlock.
  pose proof (lucky_range HN w) as Hl.
  destruct (cycle_run HN w Hlock) as [Hmiss [w' Hhit]].
  rewrite (reload_run HN). simpl.
  exists (S (Z.to_nat (NUM_BULLETS - 1 - lucky w))).
  split; [lia|]. split; [lia|]. split.
  - intros j Hj.
    destruct (Hmiss j) as (wj & Hfires & _ & Hb & Hdr); [lia|].
    exists wj. split; [done|]. unfold chambers. rewrite Hb. simpl.
    assert (Hlen : Py.len (replicate (Z.to_nat (lucky w)) false ++ true ::
                     replicate (Z.to_nat (NUM_BULLETS - 1 - lucky w) - j) false) =
                   NUM_BULLETS - Z.of_nat j).
    { unfold Py.len. rewrite length_app, length_replicate. simpl.
      rewrite length_replicate. lia. }
    rewrite Hlen. split; [done|]. split; [lia|]. split; [|done].
    rewrite loaded_app, loaded_replicate_false.
    change (true :: ?l) with ([true] ++ l).
    by rewrite loaded_app, loaded_replicate_false.
  - exists w'. rewrite Hhit, Nat.sub_succ, Nat.sub_0_r.
    by replace (NUM_BULLETS - Z.of_nat (S (Z.to_nat (NUM_BULLETS - 1 - lucky w))))
      with (lucky w) by lia.
Qed.

Lemma cycle_ends_with_hit_witness :
  1 ≤ @NUM_BULLETS roll_settings ∧
  barrel_lock (new_chat 2) = false ∧
  ∃ k : nat,
    (1 ≤ k)%nat ∧ Z.of_nat k ≤ @NUM_BULLETS roll_settings ∧
    (∀ j, (j < k)%nat →
       ∃ wj,
         @fires roll_settings j (@_reload roll_settings (new_chat 2)).2 =
           (Ok (misses (@NUM_BULLETS roll_settings) j), wj) ∧
         Py.len (chambers wj) = @NUM_BULLETS roll_settings - Z.of_nat j ∧
         0 < Py.len (chambers wj) ∧
         loaded (chambers wj) = 1%nat ∧
         drawn wj = drawn (@_reload roll_settings (new_chat 2)).2) ∧
    ∃ w',
      @fires roll_settings k (@_reload roll_settings (new_chat 2)).2 =
        (Ok (misses (@NUM_BULLETS roll_settings) (k - 1) ++
             [(true, @NUM_BULLETS roll_settings - Z.of_nat k)]), w').
Proof.
  split; [simpl; lia|]. split; [reflexivity|].
  apply (@cycle_ends_with_hit roll_settings (new_chat 2));
    [simpl; lia | reflexivity].
Defined.

(** C7, as the claim words it, fails: with the bullet in chamber 0 the
    first five shots after a reload are misses and report
    [5, 4, 3, 2, 1], not [4, 3, 2, 1, 0]. *)
Lemma five_misses_counterexample :
  ¬ (∀ (w : World) (rs : list (bool * Z)) (w5 : World),
       barrel_lock w = false →
       @fires roll_settings 5 (@_reload roll_settings w).2 = (Ok rs, w5) →
       Forall (λ r, r.1 = false) rs →
       rs.*2 = [4; 3; 2; 1; 0]).
Proof.
  intros Hclaim.
  assert (Hrun :
    @fires roll_settings 5 (@_reload roll_settings (new_chat 0)).2 =
      (Ok [(false, 5); (false, 4); (false, 3); (false, 2); (false, 1)],
       (@fires roll_settings 5 (@_reload roll_settings (new_chat 0)).2).2))
    by (vm_compute; reflexivity).
  specialize (Hclaim (new_chat 0) _ _ eq_refl Hrun).
  discriminate Hclaim. repeat constructor.
Qed.

(** C7, amended: with [N = 6], five shots after a reload that all miss
    report [5, 4, 3, 2, 1], with no reload between them; they leave the
    loaded chamber alone in the barrel, and the sixth shot is the hit and
    reports 0. *)
Theorem five_misses_then_hit (w : World) (rs : list (bool * Z)) (w5 : World) :
  barrel_lock w = false →
  @fires roll_settings 5 (@_reload roll_settings w).2 = (Ok rs, w5) →
  Forall (λ r, r.1 = false) rs →
  rs = [(false, 5); (false, 4); (false, 3); (false, 2); (false, 1)] ∧
  drawn w5 = drawn (@_reload roll_settings w).2 ∧
  chambers w5 = [true] ∧
  ∃ w6, @_shot roll_settings w5 = (Ok (true, 0), w6).
Proof.
  intros Hlock Hfires Hmiss.
  assert (HN : 1 ≤ @NUM_BULLETS roll_settings) by (simpl; lia).
  pose proof (lucky_range HN w) as Hl.
  destruct (cycle_run HN w Hlock) as [Hbefore [w' Hhit]].
  rewrite (reload_run HN) in Hfires |- *. cbn [snd] in Hfires |- *.
  set (t := Z.to_nat (@NUM_BULLETS roll_settings - 1 - @lucky roll_settings w)) in *.
  assert (Ht : (t ≤ 5)%nat) by (subst t; simpl in *; lia).
  destruct (decide (t = 5%nat)) as [Ht5|Ht5].
  - destruct (Hbefore 5%nat) as (wj & Hrun & Hlk & Hb & Hdr); [lia|].
    rewrite Hrun in Hfires. injection Hfires as <- <-.
    rewrite Ht5, Nat.sub_diag in Hb.
    assert (Hi : Z.to_nat (@lucky roll_settings w) = 0%nat)
      by (subst t; simpl in *; lia).
    rewrite Hi in Hb. simpl in Hb.
    split; [reflexivity|]. split; [done|].
    split; [unfold chambers; by rewrite Hb|].
    pose proof (shot_stored HN wj [] true Hlk Hb) as Hshot.
    eexists. exact Hshot.
  - exfalso.
    replace 5%nat with (S t + (4 - t))%nat in Hfires by lia.
    rewrite fires_app, Hhit in Hfires.
    destruct (fires (4 - t) w') as [[rb|e|] wb]; [|done..].
    injection Hfires as <- <-.
    rewrite !Forall_app in Hmiss. destruct Hmiss as [[_ Hbad] _].
    inversion Hbad as [|? ? Hhead _]. discriminate Hhead.
Qed.

Lemma five_misses_then_hit_witness :
  barrel_lock (new_chat 0) = false ∧
  Forall (λ r : bool * Z, r.1 = false)
    [(false, 5); (false, 4); (false, 3); (false, 2); (false, 1)] ∧
  drawn (@fires roll_settings 5 (@_reload roll_settings (new_chat 0)).2).2 =
    drawn (@_reload roll_settings (new_chat 0)).2 ∧
  chambers (@fires roll_settings 5 (@_reload roll_settings (new_chat 0)).2).2 =
    [true] ∧
  ∃ w6,
    @_shot roll_settings
      (@fires roll_settings 5 (@_reload roll_settings (new_chat 0)).2).2 =
    (Ok (true, 0), w6).
Proof.
  assert (Hrun :
    @fires roll_settings 5 (@_reload roll_settings (new_chat 0)).2 =
      (Ok [(false, 5); (false, 4); (false, 3); (false, 2); (false, 1)],
       (@fires roll_settings 5 (@_reload roll_settings (new_chat 0)).2).2))
    by (vm_compute; reflexivity).
  assert (Hmiss : Forall (λ r : bool * Z, r.1 = false)
            [(false, 5); (false, 4); (false, 3); (false, 2); (false, 1)])
    by (repeat constructor).
  split; [reflexivity|]. split; [exact Hmiss|].
  exact (proj2 (five_misses_then_hit (new_chat 0) _ _ eq_refl Hrun Hmiss)).
Defined.

(** ** The ledger *)

Lemma find_run (uid : Z) (w : World) : DB.find uid w = (Ok (hussars w !! uid), w).
Proof. reflexivity. Qed.

Lemma add_run (user : User) (w : World) :
  DB.add user w =
    match hussars w !! user_id user with
    | Some _ => (Raise DuplicateKeyError, with_ticks (S (ticks w)) w)
    | None =>
        (Ok (),
         with_hussars
           (<[user_id user:=mkHussar (to_dict user) 0 0 0 0
                              (clock w (ticks w)) (clock w (ticks w))]> (hussars w))
           (with_ticks (S (ticks w)) w))
    end.
Proof.
  unfold DB.add, DB.insert_one, datetime_now, mbind, M_bind. simpl.
  by destruct (hussars w !! user_id user).
Qed.

Lemma miss_run (uid : Z) (w : World) :
  DB.miss uid w =
    (Ok (),
     with_hussars
       (alter (λ h, mkHussar (meta h) (shot_counter h + 1) (miss_counter h + 1)
                      (dead_counter h) (total_time_in_club h) (first_shot h)
                      (clock w (ticks w))) uid (hussars w))
       (with_ticks (S (ticks w)) w)).
Proof. reflexivity. Qed.

Lemma dead_run (uid mute_min : Z) (w : World) :
  DB.dead uid mute_min w =
    (Ok (),
     with_hussars
       (alter (λ h, mkHussar (meta h) (shot_counter h + 1) (miss_counter h)
                      (dead_counter h + 1) (total_time_in_club h + mute_min * 60)
                      (first_shot h) (clock w (ticks w))) uid (hussars w))
       (with_ticks (S (ticks w)) w)).
Proof. reflexivity. Qed.

Lemma alter_balanced (f : Hussar → Hussar) (uid : Z) (hs : gmap Z Hussar) :
  (∀ h, balanced h → balanced (f h)) →
  ledger_balanced hs → ledger_balanced (alter f uid hs).
Proof.
  intros Hf Hhs uid' h'. destruct (decide (uid = uid')) as [<-|Hne].
  - rewrite lookup_alter_eq. destruct (hs !! uid) as [h|] eqn:Hh; [|done].
    simpl. intros [= <-]. apply Hf. by eapply Hhs.
  - rewrite lookup_alter_ne by done. apply Hhs.
Qed.

Lemma ledger_op_balanced (op : LedgerOp) (w : World) :
  ledger_balanced (hussars w) → ledger_balanced (hussars (ledger_op op w).2).
Proof.
  intros Hw. destruct op as [user|uid|uid mute_min]; unfold ledger_op.
  - rewrite add_run. destruct (hussars w !! user_id user) eqn:Hu; simpl; [done|].
    intros uid' h'. destruct (decide (user_id user = uid')) as [<-|Hne].
    + rewrite lookup_insert_eq. intros [= <-]. unfold balanced. simpl. lia.
    + rewrite lookup_insert_ne by done. apply Hw.
  - rewrite miss_run. simpl. apply alter_balanced; [|done].
    intros h. unfold balanced. simpl. lia.
  - rewrite dead_run. simpl. apply alter_balanced; [|done].
    intros h. unfold balanced. simpl. lia.
Qed.

Lemma ledger_run_balanced (ops : list LedgerOp) (w : World) :
  ledger_balanced (hussars w) → ledger_balanced (hussars (ledger_run ops w)).
Proof.
  revert w. induction ops as [|op ops IH]; intros w Hw; [done|].
  simpl. apply IH. by apply ledger_op_balanced.
Qed.

(** C5: starting from a balanced collection (the empty one, say), after
    every history of [DB.add], [DB.miss] and [DB.dead] calls every
    document has [shot_counter = miss_counter + dead_counter].  [DB.add]
    of a new player creates the three counters (and the time in the club)
    at zero; [DB.miss] adds exactly 1 to [shot_counter] and [miss_counter];
    [DB.dead] adds exactly 1 to [shot_counter] and [dead_counter] and
    exactly [mute_min * 60] to [total_time_in_club]. *)
Theorem ledger_counters_balanced (ops : list LedgerOp) (w : World) :
  ledger_balanced (hussars w) →
  ledger_balanced (hussars (ledger_run ops w)) ∧
  (∀ user, hussars w !! user_id user = None →
     ∃ h, hussars (DB.add user w).2 !! user_id user = Some h ∧
          shot_counter h = 0 ∧ miss_counter h = 0 ∧ dead_counter h = 0 ∧
          total_time_in_club h = 0) ∧
  (∀ uid h, hussars w !! uid = Some h →
     ∃ h', hussars (DB.miss uid w).2 !! uid = Some h' ∧
           shot_counter h' = shot_counter h + 1 ∧
           miss_counter h' = miss_counter h + 1 ∧
           dead_counter h' = dead_counter h) ∧
  (∀ uid mute_min h, hussars w !! uid = Some h →
     ∃ h', hussars (DB.dead uid mute_min w).2 !! uid = Some h' ∧
           shot_counter h' = shot_counter h + 1 ∧
           dead_counter h' = dead_counter h + 1 ∧
           miss_counter h' = miss_counter h ∧
           total_time_in_club h' = total_time_in_club h + mute_min * 60).
Proof.
  intros Hw. split; [by apply ledger_run_balanced|]. split; [|split].
  - intros user Hnew. rewrite add_run, Hnew. simpl.
    rewrite lookup_insert_eq. by eexists.
  - intros uid h Hh. rewrite miss_run. simpl.
    rewrite lookup_alter_eq, Hh. simpl. by eexists.
  - intros uid mute_min h Hh. rewrite dead_run. simpl.
    rewrite lookup_alter_eq, Hh. simpl. by eexists.
Qed.

(** C9: on a registered player, [DB.miss] leaves [dead_counter],
    [total_time_in_club], [first_shot] and [meta] as they were, and
    [DB.dead] leaves [miss_counter], [first_shot] and [meta] as they were;
    neither touches any other document, the barrel, the lock or the
    requests to the bot. *)
Theorem ledger_updates_frame (w : World) (uid mute_min : Z) (h : Hussar) :
  hussars w !! uid = Some h →
  (∃ h', hussars (DB.miss uid w).2 !! uid = Some h' ∧
         dead_counter h' = dead_counter h ∧
         total_time_in_club h' = total_time_in_club h ∧
         first_shot h' = first_shot h ∧
         meta h' = meta h) ∧
  (∃ h', hussars (DB.dead uid mute_min w).2 !! uid = Some h' ∧
         miss_counter h' = miss_counter h ∧
         first_shot h' = first_shot h ∧
         meta h' = meta h) ∧
  (∀ w', w' = (DB.miss uid w).2 ∨ w' = (DB.dead uid mute_min w).2 →
     (∀ other, other ≠ uid → hussars w' !! other = hussars w !! other) ∧
     chat_data w' = chat_data w ∧
     barrel_lock w' = barrel_lock w ∧
     drawn w' = drawn w ∧
     outbox w' = outbox w).
Proof.
  intros Hh. split; [|split].
  - rewrite miss_run. simpl. rewrite lookup_alter_eq, Hh. simpl. by eexists.
  - rewrite dead_run. simpl. rewrite lookup_alter_eq, Hh. simpl. by eexists.
  - intros w' [-> | ->]; [rewrite miss_run | rewrite dead_run]; simpl;
      (split; [intros other Hne; by rewrite lookup_alter_ne|done]).
Qed.

Lemma ledger_updates_frame_witness :
  hussars registered !! 42 = Some (mkHussar ∅ 0 0 0 0 0 0) ∧
  (∃ h', hussars (DB.miss 42 registered).2 !! 42 = Some h' ∧
         dead_counter h' = 0 ∧ total_time_in_club h' = 0 ∧
         first_shot h' = 0 ∧ meta h' = ∅) ∧
  (∃ h', hussars (DB.dead 42 960 registered).2 !! 42 = Some h' ∧
         miss_counter h' = 0 ∧ first_shot h' = 0 ∧ meta h' = ∅).
Proof.
  assert (Hreg : hussars registered !! 42 = Some (mkHussar ∅ 0 0 0 0 0 0))
    by (vm_compute; reflexivity).
  split; [exact Hreg|].
  destruct (ledger_updates_frame registered 42 960 _ Hreg) as (Hmiss & Hdead & _).
  split; [exact Hmiss | exact Hdead].
Defined.

Lemma ledger_counters_balanced_witness :
  ledger_balanced (hussars (new_chat 0)) ∧
  ledger_balanced
    (hussars (ledger_run [Register bob; RecordMiss 42; RecordDeath 42 960;
                          Register bob; RecordMiss 42] (new_chat 0))).
Proof.
  assert (Hempty : ledger_balanced (hussars (new_chat 0))).
  { intros uid h Hh. simpl in Hh. by rewrite lookup_empty in Hh. }
  split; [exact Hempty|].
  exact (proj1 (ledger_counters_balanced _ (new_chat 0) Hempty)).
Defined.

(** ** Worlds between shots *)

Section ReachableFacts.
Context `{Settings}.
Hypothesis chambers_exist : 1 ≤ NUM_BULLETS.

Lemma firing_armed (w : World) :
  armed w →
  loaded (chambers (firing w)) = 1%nat ∧
  Py.len (chambers (firing w)) ≤ NUM_BULLETS.
Proof.
  intros [_ Hb]. pose proof (lucky_range chambers_exist w) as Hl.
  destruct (needs_reload w) eqn:Hneed.
  - rewrite firing_cylinder by done.
    rewrite cylinder_loaded, cylinder_length by done. split; [done|lia].
  - unfold firing. rewrite Hneed. unfold chambers.
    destruct Hb as [Hnone | (b & Hsome & Hload & Hlen)].
    + unfold needs_reload in Hneed. by rewrite Hnone in Hneed.
    + by rewrite Hsome.
Qed.

Lemma shot_armed (w : World) : armed w → armed (_shot w).2.
Proof.
  intros Harmed. pose proof (firing_armed w Harmed) as [Hload Hlen].
  destruct Harmed as [Hlock _].
  destruct (shot_run chambers_exist w Hlock) as (rest & fate & Hsplit & Hshot).
  rewrite Hshot. cbn [snd]. rewrite Hsplit in Hload, Hlen.
  rewrite loaded_app in Hload. rewrite len_app in Hlen.
  destruct fate.
  - split; [simpl; by rewrite firing_lock|].
    right. eexists. split; [simpl; by rewrite lookup_insert_eq|].
    pose proof (lucky_range chambers_exist (popped rest (firing w))) as Hl.
    rewrite cylinder_loaded, cylinder_length by done. split; [done|lia].
  - split; [simpl; by rewrite firing_lock|].
    right. exists rest. split; [simpl; by rewrite lookup_insert_eq|].
    unfold loaded in Hload at 2. rewrite filter_cons_False in Hload by done.
    simpl in Hload. unfold Py.len in Hlen at 2. simpl in Hlen.
    split; lia.
Qed.

Lemma reachable_armed (w : World) : reachable w → armed w.
Proof.
  induction 1 as [w Hnone Hlock | w Hlock | w _ IH | w w' _ IH Hcd Hlk].
  - split; [done | by left].
  - rewrite (reload_run chambers_exist). cbn [snd]. split; [done|].
    right. eexists. split; [simpl; by rewrite lookup_insert_eq|].
    pose proof (lucky_range chambers_exist w) as Hl.
    rewrite cylinder_loaded, cylinder_length by done. split; [done|lia].
  - by apply shot_armed.
  - destruct IH as [Hlock Hb]. split; [congruence|]. by rewrite Hcd.
Qed.

(** A miss in an armed world leaves the bullet behind. *)
Lemma miss_remained (w w' : World) (remained : Z) :
  armed w → _shot w = (Ok (false, remained), w') →
  1 ≤ remained ≤ NUM_BULLETS - 1.
Proof.
  intros Harmed Hmiss. pose proof (firing_armed w Harmed) as [Hload Hlen].
  destruct Harmed as [Hlock _].
  destruct (shot_run chambers_exist w Hlock) as (rest & fate & Hsplit & Hshot).
  rewrite Hshot in Hmiss. injection Hmiss as -> <- _.
  rewrite Hsplit in Hload, Hlen.
  rewrite loaded_app in Hload. rewrite len_app in Hlen.
  unfold loaded in Hload at 2. rewrite filter_cons_False in Hload by done.
  simpl in Hload. unfold Py.len in Hlen at 2. simpl in Hlen.
  pose proof (loaded_le_length rest). unfold Py.len in *. lia.
Qed.

End ReachableFacts.

(** C10: with [N = 6], a miss of a shot fired in a world reachable from a
    new chat or a reload reports between 1 and [N - 1] chambers, so the
    index [NUM_BULLETS - shots_remain - 1] into the five moods lies in
    [[0, 4]] and [get_miss_string] returns its text without raising. *)
Theorem miss_narration_in_bounds (w w' : World) (remained : Z) :
  @reachable roll_settings w →
  @_shot roll_settings w = (Ok (false, remained), w') →
  1 ≤ remained ≤ @NUM_BULLETS roll_settings - 1 ∧
  0 ≤ @NUM_BULLETS roll_settings - remained - 1 ≤ 4 ∧
  ∃ text, @get_miss_string roll_settings remained = Ok text.
Proof.
  intros Hreach Hmiss.
  assert (HN : 1 ≤ @NUM_BULLETS roll_settings) by (simpl; lia).
  pose proof (miss_remained HN w w' remained (reachable_armed HN w Hreach) Hmiss)
    as Hr.
  simpl in Hr |- *. split; [lia|]. split; [lia|].
  assert (Hcases : remained = 1 ∨ remained = 2 ∨ remained = 3 ∨
                   remained = 4 ∨ remained = 5) by lia.
  destruct Hcases as [->|[->|[->|[->| ->]]]]; eexists; vm_compute; reflexivity.
Qed.

Lemma miss_narration_in_bounds_witness :
  @reachable roll_settings (new_chat 0) ∧
  @_shot roll_settings (new_chat 0) =
    (Ok (false, 5), (@_shot roll_settings (new_chat 0)).2) ∧
  1 ≤ 5 ≤ @NUM_BULLETS roll_settings - 1 ∧
  0 ≤ @NUM_BULLETS roll_settings - 5 - 1 ≤ 4 ∧
  ∃ text, @get_miss_string roll_settings 5 = Ok text.
Proof.
  assert (Hreach : @reachable roll_settings (new_chat 0))
    by (apply reachable_new; reflexivity).
  assert (Hshot : @_shot roll_settings (new_chat 0) =
                  (Ok (false, 5), (@_shot roll_settings (new_chat 0)).2))
    by (vm_compute; reflexivity).
  split; [exact Hreach|]. split; [exact Hshot|].
  exact (miss_narration_in_bounds (new_chat 0) _ 5 Hreach Hshot).
Defined.

(** ** The handler *)

Section HandlerFacts.
Context `{Settings}.
Hypothesis chambers_exist : 1 ≤ NUM_BULLETS.

(** A shot leaves the collection, the clock and the requests alone and
    gives the lock back. *)
Lemma shot_frame (w : World) :
  barrel_lock w = false →
  hussars (_shot w).2 = hussars w ∧
  outbox (_shot w).2 = outbox w ∧
  barrel_lock (_shot w).2 = false.
Proof.
  intros Hlock.
  destruct (shot_run chambers_exist w Hlock) as (rest & fate & _ & ->).
  unfold firing. by destruct fate, (needs_reload w).
Qed.

Lemma ensured_frame (user : User) (w : World) :
  barrel_lock (ensured user w) = barrel_lock w ∧
  chat_data (ensured user w) = chat_data w ∧
  outbox (ensured user w) = outbox w.
Proof.
  unfold ensured. destruct (hussars w !! user_id user) eqn:Hu; [done|].
  by rewrite add_run, Hu.
Qed.

Lemma ensured_lookup (user : User) (w : World) :
  hussars (ensured user w) !! user_id user =
    Some (default (mkHussar (to_dict user) 0 0 0 0
                     (clock w (ticks w)) (clock w (ticks w)))
            (hussars w !! user_id user)) ∧
  ∀ other, other ≠ user_id user →
    hussars (ensured user w) !! other = hussars w !! other.
Proof.
  unfold ensured. destruct (hussars w !! user_id user) eqn:Hu; [done|].
  rewrite add_run, Hu. simpl. rewrite lookup_insert_eq. split; [done|].
  intros other Hne. by rewrite lookup_insert_ne.
Qed.

Lemma roll_run (update : Update) (w w2 : World) (fate : bool) (r : Z) :
  let user := effective_user update in
  _shot (ensured user w) = (Ok (fate, r), w2) →
  roll update w =
    if fate then
      (Ok (),
       (DB.dead (user_id user) (get_mute_minutes r)
          (with_outbox
             ((outbox w2 ++
               [SendMessage (effective_chat_id update)
                  ("💥 boom! " +:+ full_name user +:+ " 😵 [" +:+
                   pretty (get_mute_minutes r `div` 60) +:+ "h mute]")]) ++
              [MuteUser (effective_chat_id update) (user_id user)
                 (get_mute_minutes r)]) w2)).2)
    else
      match get_miss_string r with
      | Ok text =>
          (Ok (),
           with_outbox
             (outbox w2 ++
              [SendMessage (effective_chat_id update)
                 (full_name user +:+ ": " +:+ text)])
             (DB.miss (user_id user) w2).2)
      | Raise e => (Raise e, (DB.miss (user_id user) w2).2)
      | Blocked => (Blocked, (DB.miss (user_id user) w2).2)
      end.
Proof.
  intros user Hshot. unfold ensured in Hshot.
  unfold roll, mbind, M_bind. rewrite find_run. fold user.
  destruct (hussars w !! user_id user) eqn:Hu.
  - unfold mret at 1, M_ret at 1. rewrite Hshot.
    destruct fate; [reflexivity|].
    rewrite miss_run. by destruct (get_miss_string r).
  - rewrite add_run, Hu in Hshot |- *. cbn [snd] in Hshot. rewrite Hshot.
    destruct fate; [reflexivity|].
    rewrite miss_run. by destruct (get_miss_string r).
Qed.

Lemma fire_run (user : User) (w w2 : World) (fate : bool) (r : Z) :
  _shot (ensured user w) = (Ok (fate, r), w2) →
  GameService_fire user w =
    if fate then
      (Ok (mkFireOutcome true (get_mute_minutes r) r),
       (DB.dead (user_id user) (get_mute_minutes r) w2).2)
    else
      (Ok (mkFireOutcome false 0 r), (DB.miss (user_id user) w2).2).
Proof.
  intros Hshot. unfold ensured in Hshot.
  unfold GameService_fire, mbind, M_bind. rewrite find_run.
  destruct (hussars w !! user_id user) eqn:Hu.
  - unfold mret at 1, M_ret at 1. rewrite Hshot. by destruct fate.
  - rewrite add_run, Hu in Hshot |- *. cbn [snd] in Hshot. rewrite Hshot.
    by destruct fate.
Qed.

End HandlerFacts.

(** C6: [roll] carries out the specification's fire sequence.  It adds the
    player only when [DB.find] finds no document, so the counters of a
    known player are the ones the shot is recorded on, never fresh zeros;
    then it fires.  On a hit it computes the mute from the reported
    remaining count, asks for a mute of exactly that many minutes and
    records the death with that value; on a miss it records the miss and
    asks for no mute (penalty 0).  [roll] returns nothing: the outcome of
    the specification shows in the ledger and in the requests to the bot,
    which agree with [GameService_fire]. *)
Theorem roll_orchestrates_fire `{Settings} (update : Update) (w : World) :
  1 ≤ NUM_BULLETS →
  barrel_lock w = false →
  let user := effective_user update in
  let uid := user_id user in
  let before :=
    default (mkHussar (to_dict user) 0 0 0 0 (clock w (ticks w)) (clock w (ticks w)))
      (hussars w !! uid) in
  ∃ (o : FireOutcome) (ws w2 : World) (h' : Hussar) (new : list Effect),
    GameService_fire user w = (Ok o, ws) ∧
    _shot (ensured user w) = (Ok (died o, remainingBefore o), w2) ∧
    hussars (ensured user w) !! uid = Some before ∧
    hussars (roll update w).2 = hussars ws ∧
    chat_data (roll update w).2 = chat_data ws ∧
    barrel_lock (roll update w).2 = false ∧
    hussars (roll update w).2 !! uid = Some h' ∧
    (∀ other, other ≠ uid →
       hussars (roll update w).2 !! other = hussars w !! other) ∧
    outbox (roll update w).2 = outbox w ++ new ∧
    if died o then
      (roll update w).1 = Ok () ∧
      penaltyMinutes o = get_mute_minutes (remainingBefore o) ∧
      mutes new = [MuteUser (effective_chat_id update) uid (penaltyMinutes o)] ∧
      shot_counter h' = shot_counter before + 1 ∧
      dead_counter h' = dead_counter before + 1 ∧
      miss_counter h' = miss_counter before ∧
      total_time_in_club h' = total_time_in_club before + penaltyMinutes o * 60
    else
      (∀ text, get_miss_string (remainingBefore o) = Ok text →
         (roll update w).1 = Ok ()) ∧
      penaltyMinutes o = 0 ∧
      mutes new = [] ∧
      shot_counter h' = shot_counter before + 1 ∧
      miss_counter h' = miss_counter before + 1 ∧
      dead_counter h' = dead_counter before ∧
      total_time_in_club h' = total_time_in_club before.
Proof.
  intros HN Hlock user uid before.
  destruct (ensured_frame user w) as (Hlk1 & Hcd1 & Hob1).
  destruct (ensured_lookup user w) as [Hbefore Hothers].
  fold uid before in Hbefore.
  assert (Hlock1 : barrel_lock (ensured user w) = false) by congruence.
  destruct (shot_frame HN _ Hlock1) as (Hhs2 & Hob2 & Hlk2).
  destruct (shot_run HN _ Hlock1) as (rest & fate & _ & Hshot).
  rewrite Hshot in Hhs2, Hob2, Hlk2. cbn [snd] in Hhs2, Hob2, Hlk2.
  set (w2 := if fate then _ else _) in *.
  rewrite (roll_run update w w2 fate (Py.len rest) Hshot).
  rewrite (fire_run user w w2 fate (Py.len rest) Hshot).
  fold user uid.
  assert (Hb2 : hussars w2 !! uid = Some before) by (by rewrite Hhs2).
  assert (Ho2 : ∀ other, other ≠ uid → hussars w2 !! other = hussars w !! other).
  { intros other Hne. rewrite Hhs2. by apply Hothers. }
  destruct fate.
  - eexists (mkFireOutcome true _ _), _, w2, _, _.
    split; [reflexivity|]. split; [exact Hshot|]. split; [exact Hbefore|].
    rewrite !dead_run. cbn [snd fst hussars chat_data barrel_lock outbox
      with_hussars with_ticks with_outbox died penaltyMinutes remainingBefore].
    split; [reflexivity|]. split; [reflexivity|]. split; [exact Hlk2|].
    split; [rewrite lookup_alter_eq, Hb2; reflexivity|].
    split; [intros other Hne; rewrite lookup_alter_ne by done; by apply Ho2|].
    split; [rewrite <- app_assoc, Hob2, Hob1; reflexivity|].
    repeat split; reflexivity.
  - destruct (get_miss_string (Py.len rest)) as [text|e|] eqn:Htext.
    + eexists (mkFireOutcome false 0 _), _, w2, _, _.
      split; [reflexivity|]. split; [exact Hshot|]. split; [exact Hbefore|].
      rewrite !miss_run. cbn [snd fst hussars chat_data barrel_lock outbox
        with_hussars with_ticks with_outbox died penaltyMinutes remainingBefore].
      split; [reflexivity|]. split; [reflexivity|]. split; [exact Hlk2|].
      split; [rewrite lookup_alter_eq, Hb2; reflexivity|].
      split; [intros other Hne; rewrite lookup_alter_ne by done; by apply Ho2|].
      split; [rewrite Hob2, Hob1; reflexivity|].
      repeat split; reflexivity.
    + eexists (mkFireOutcome false 0 _), _, w2, _, [].
      split; [reflexivity|]. split; [exact Hshot|]. split; [exact Hbefore|].
      rewrite !miss_run. cbn [snd fst hussars chat_data barrel_lock outbox
        with_hussars with_ticks with_outbox died penaltyMinutes remainingBefore].
      split; [reflexivity|]. split; [reflexivity|]. split; [exact Hlk2|].
      split; [rewrite lookup_alter_eq, Hb2; reflexivity|].
      split; [intros other Hne; rewrite lookup_alter_ne by done; by apply Ho2|].
      split; [rewrite app_nil_r, Hob2, Hob1; reflexivity|].
      split; [intros text Hok; rewrite Htext in Hok; discriminate Hok|].
      repeat split; reflexivity.
    + eexists (mkFireOutcome false 0 _), _, w2, _, [].
      split; [reflexivity|]. split; [exact Hshot|]. split; [exact Hbefore|].
      rewrite !miss_run. cbn [snd fst hussars chat_data barrel_lock outbox
        with_hussars with_ticks with_outbox died penaltyMinutes remainingBefore].
      split; [reflexivity|]. split; [reflexivity|]. split; [exact Hlk2|].
      split; [rewrite lookup_alter_eq, Hb2; reflexivity|].
      split; [intros other Hne; rewrite lookup_alter_ne by done; by apply Ho2|].
      split; [rewrite app_nil_r, Hob2, Hob1; reflexivity|].
      split; [intros text Hok; rewrite Htext in Hok; discriminate Hok|].
      repeat split; reflexivity.
Qed.

Lemma roll_orchestrates_fire_witness :
  1 ≤ @NUM_BULLETS roll_settings ∧
  barrel_lock (new_chat 5) = false ∧
  ∃ o ws,
    @GameService_fire roll_settings bob (new_chat 5) = (Ok o, ws) ∧
    hussars (@roll roll_settings (mkUpdate bob 7) (new_chat 5)).2 = hussars ws ∧
    chat_data (@roll roll_settings (mkUpdate bob 7) (new_chat 5)).2 = chat_data ws.
Proof.
  split; [simpl; lia|]. split; [reflexivity|].
  destruct (@roll_orchestrates_fire roll_settings (mkUpdate bob 7) (new_chat 5))
    as (o & ws & _ & _ & _ & Hfire & _ & _ & Hhs & Hcd & _);
    [simpl; lia | reflexivity |].
  exists o, ws. split; [exact Hfire|]. split; [exact Hhs | exact Hcd].
Defined.

(** ** Shots running side by side *)

Lemma holding_insert (ts : list (Z * Pc)) (i : nat) (old new : Z * Pc) :
  ts !! i = Some old →
  (holding (<[i:=new]> ts) + Nat.b2n (is_holding old) =
   holding ts + Nat.b2n (is_holding new))%nat.
Proof.
  unfold holding. revert i. induction ts as [|t ts IH]; intros i Hi; [done|].
  destruct i as [|i]; simpl in Hi |- *.
  - injection Hi as ->. rewrite !filter_cons.
    destruct (decide (is_holding new = true)) as [Hn|Hn],
             (decide (is_holding old = true)) as [Ho|Ho]; simpl;
      destruct (is_holding new), (is_holding old); simpl; (done || lia).
  - specialize (IH i Hi). rewrite !filter_cons.
    destruct (decide (is_holding t = true)); simpl; lia.
Qed.

Lemma holding_waiting (ts : list (Z * Pc)) :
  Forall (λ t, t.2 = Waiting) ts → holding ts = 0%nat.
Proof.
  unfold holding. induction 1 as [|[c pc] ts Hpc _ IH]; [done|].
  simpl in Hpc. subst pc. by rewrite filter_cons_False.
Qed.

Section ThreadFacts.
Context `{Settings}.
Hypothesis chambers_exist : 1 ≤ NUM_BULLETS.

(** The part of [_shot] that runs with the lock held ends by giving the
    lock back. *)
Lemma shot_holding_releases (w : World) :
  barrel_lock w = true → barrel_lock (_shot_holding w).2 = false.
Proof.
  intros Hheld.
  assert (Hw : w = with_barrel_lock true (with_barrel_lock false w)).
  { destruct w. simpl in Hheld. by subst. }
  pose proof (shot_frame chambers_exist (with_barrel_lock false w) eq_refl)
    as (_ & _ & Hfree).
  unfold _shot, acquire, mbind, M_bind in Hfree. simpl in Hfree.
  by rewrite <- Hw in Hfree.
Qed.

Lemma waiting_moves (i : nat) (c : Z) (p : Process) :
  threads p !! i = Some (c, Waiting) →
  is_Some (step_thread i p) ↔ barrel_lock (shared p) = false.
Proof.
  intros Hi. unfold step_thread, acquire. rewrite Hi. simpl.
  destruct (barrel_lock (shared p)); split; intros Hx;
    (done || by inversion Hx).
Qed.

Lemma step_lock_counts (p p' : Process) :
  lock_counts p → step p p' → lock_counts p'.
Proof.
  unfold lock_counts. intros Hinv Hmove.
  inversion Hmove as [i q q' Hstep]; subst q q'.
  unfold step_thread in Hstep.
  destruct (threads p !! i) as [[c [| |r]]|] eqn:Hi; [| |done..].
  - unfold acquire in Hstep. simpl in Hstep.
    destruct (barrel_lock (shared p)) eqn:Hlk; [done|].
    injection Hstep as <-. simpl.
    pose proof (holding_insert _ i _ (c, Holding) Hi) as Hcount.
    simpl in *. lia.
  - destruct (_shot_holding (enter c p)) as [r w] eqn:Hrun.
    injection Hstep as <-. simpl.
    pose proof (holding_insert _ i _ (c, Finished r) Hi) as Hcount.
    simpl in Hcount.
    assert (Hheld : barrel_lock (shared p) = true).
    { destruct (barrel_lock (shared p)); [done|]. simpl in Hinv. lia. }
    pose proof (shot_holding_releases (enter c p) Hheld) as Hfree.
    rewrite Hrun in Hfree. simpl in Hfree.
    rewrite Hheld in Hinv. rewrite Hfree. simpl in *. lia.
Qed.

Lemma run_lock_counts (p0 p : Process) :
  initial p0 → rtc step p0 p → lock_counts p.
Proof.
  intros [Hfree Hwait] Hrun.
  assert (H0 : lock_counts p0).
  { unfold lock_counts. by rewrite holding_waiting, Hfree. }
  clear Hfree Hwait. induction Hrun as [|p0 p1 p Hstep _ IH]; [done|].
  apply IH. by eapply step_lock_counts.
Qed.

End ThreadFacts.

Lemma holding_some (ts : list (Z * Pc)) (j : nat) (c : Z) :
  ts !! j = Some (c, Holding) → (1 ≤ holding ts)%nat.
Proof.
  unfold holding. revert j. induction ts as [|t ts IH]; intros j Hj; [done|].
  destruct j as [|j]; simpl in Hj.
  - injection Hj as ->. rewrite filter_cons_True by done. simpl. lia.
  - specialize (IH j Hj). rewrite filter_cons.
    destruct (decide (is_holding t = true)); simpl; lia.
Qed.

(** C8, as the claim words it, fails: [barrel_lock] is one lock of the
    module, so once the thread of chat 1 has acquired it the thread of
    chat 2 cannot move. *)
Lemma per_chat_lock_counterexample :
  ¬ (∀ (p0 p : Process) (i j : nat) (ci cj : Z),
       initial p0 → rtc (@step roll_settings) p0 p →
       ci ≠ cj →
       threads p !! i = Some (ci, Waiting) →
       threads p !! j = Some (cj, Holding) →
       is_Some (@step_thread roll_settings i p)).
Proof.
  intros Hclaim.
  assert (Hstep : @step_thread roll_settings 0 two_chats = Some chat1_holds)
    by (vm_compute; reflexivity).
  assert (Hinit : initial two_chats)
    by (split; [reflexivity | repeat constructor]).
  destruct (Hclaim two_chats chat1_holds 1%nat 0%nat 2 1 Hinit) as [q Hq].
  - apply rtc_once. by eapply step_of.
  - lia.
  - reflexivity.
  - reflexivity.
  - vm_compute in Hq. discriminate Hq.
Qed.

(** C8, amended: mutual exclusion around the read-reload-pop-maybe-reload
    sequence is for the whole process.  In every state a run of shots can
    reach, at most one thread, of whatever chat, is past [acquire]; the
    lock is held exactly then; a waiting thread can move exactly when no
    thread holds the lock, so a shot in one chat waits for a shot that is
    under way in any other chat. *)
Theorem one_lock_for_all_chats `{Settings} (p0 p : Process) :
  1 ≤ NUM_BULLETS →
  initial p0 →
  rtc step p0 p →
  (holding (threads p) ≤ 1)%nat ∧
  (barrel_lock (shared p) = true ↔ holding (threads p) = 1%nat) ∧
  (∀ i c, threads p !! i = Some (c, Waiting) →
     (is_Some (step_thread i p) ↔ holding (threads p) = 0%nat)) ∧
  (∀ i j ci cj,
     threads p !! i = Some (ci, Waiting) →
     threads p !! j = Some (cj, Holding) →
     step_thread i p = None).
Proof.
  intros HN Hinit Hrun.
  pose proof (run_lock_counts HN p0 p Hinit Hrun) as Hinv.
  unfold lock_counts in Hinv.
  split; [|split; [|split]].
  - rewrite Hinv. destruct (barrel_lock (shared p)); simpl; lia.
  - rewrite Hinv. destruct (barrel_lock (shared p)); simpl; split; (done || lia).
  - intros i c Hi. rewrite (waiting_moves i c p Hi), Hinv.
    destruct (barrel_lock (shared p)); simpl; split; (done || lia).
  - intros i j ci cj Hi Hj.
    pose proof (holding_some _ j cj Hj) as Hpos.
    destruct (step_thread i p) as [q|] eqn:Hq; [|done].
    assert (Hsome : is_Some (step_thread i p)) by (by rewrite Hq).
    apply (waiting_moves i ci p Hi) in Hsome.
    rewrite Hsome in Hinv. simpl in Hinv. lia.
Qed.

Lemma one_lock_for_all_chats_witness :
  1 ≤ @NUM_BULLETS roll_settings ∧
  initial two_chats ∧
  rtc (@step roll_settings) two_chats chat1_holds ∧
  (holding (threads chat1_holds) ≤ 1)%nat ∧
  (barrel_lock (shared chat1_holds) = true ↔
   holding (threads chat1_holds) = 1%nat) ∧
  (∀ i j ci cj,
     threads chat1_holds !! i = Some (ci, Waiting) →
     threads chat1_holds !! j = Some (cj, Holding) →
     @step_thread roll_settings i chat1_holds = None).
Proof.
  assert (HN : 1 ≤ @NUM_BULLETS roll_settings) by (simpl; lia).
  assert (Hinit : initial two_chats)
    by (split; [reflexivity | repeat constructor]).
  assert (Hrun : rtc (@step roll_settings) two_chats chat1_holds).
  { apply rtc_once. apply (step_of 0). vm_compute. reflexivity. }
  split; [exact HN|]. split; [exact Hinit|]. split; [exact Hrun|].
  destruct (@one_lock_for_all_chats roll_settings two_chats chat1_holds
              HN Hinit Hrun) as (Hmost & Hiff & _ & Hblocked).
  split; [exact Hmost|]. split; [exact Hiff | exact Hblocked].
Defined.

(** * Further properties *)

(** ** Shots in a row *)

Section ShotSequel.
Context `{Settings}.
Hypothesis chambers_exist : 1 ≤ NUM_BULLETS.

Lemma hit_remained (w w' : World) (remained : Z) :
  armed w → _shot w = (Ok (true, remained), w') →
  0 ≤ remained ≤ NUM_BULLETS - 1.
Proof.
  intros Harmed Hhit. pose proof (firing_armed chambers_exist w Harmed) as [_ Hlen].
  destruct Harmed as [Hlock _].
  destruct (shot_run chambers_exist w Hlock) as (rest & fate & Hsplit & Hshot).
  rewrite Hshot in Hhit. injection Hhit as -> <- _.
  rewrite Hsplit, len_app in Hlen. unfold Py.len in Hlen at 2. simpl in Hlen.
  pose proof (len_nonneg rest). lia.
Qed.

End ShotSequel.

(** X1: between shots ([armed]: lock free, one bullet in the stored
    barrel), a miss that reports [remained] is followed by a shot that
    fires from the same barrel, with no reload before its pop, and reports
    [remained - 1]. *)
Theorem shot_after_miss `{Settings} (w w' : World) (remained : Z) :
  1 ≤ NUM_BULLETS →
  armed w →
  _shot w = (Ok (false, remained), w') →
  armed w' ∧
  needs_reload w' = false ∧
  drawn w' = drawn (firing w) ∧
  ∃ fate w'', _shot w' = (Ok (fate, remained - 1), w'').
Proof.
  intros HN Harmed Hmiss.
  pose proof (shot_armed HN w Harmed) as Harmed'.
  rewrite Hmiss in Harmed'. cbn [snd] in Harmed'.
  pose proof (miss_remained HN w w' remained Harmed Hmiss) as Hr.
  destruct Harmed as [Hlock _].
  destruct (shot_run HN w Hlock) as (rest & fate & Hsplit & Hshot).
  rewrite Hshot in Hmiss. injection Hmiss as -> <- <-.
  assert (Hne : rest ≠ []).
  { intros ->. unfold Py.len in Hr. simpl in Hr. lia. }
  destruct (pop_nonempty rest Hne) as (rest' & x & -> & _).
  assert (Hstored : chat_data (popped (rest' ++ [x]) (firing w)) !! "barrel" =
                    Some (rest' ++ [x]))
    by (simpl; by rewrite lookup_insert_eq).
  split; [done|]. split.
  { unfold needs_reload. rewrite Hstored. apply Z.eqb_neq.
    rewrite len_app. pose proof (len_nonneg rest'). unfold Py.len at 2. simpl. lia. }
  split; [done|].
  destruct Harmed' as [Hlock' _].
  rewrite (shot_stored HN _ rest' x Hlock' Hstored).
  replace (Py.len (rest' ++ [x]) - 1) with (Py.len rest').
  - by eexists _, _.
  - rewrite len_app. unfold Py.len at 3. simpl. lia.
Qed.

Lemma shot_after_miss_witness :
  1 ≤ @NUM_BULLETS roll_settings ∧
  @armed roll_settings (new_chat 0) ∧
  @_shot roll_settings (new_chat 0) =
    (Ok (false, 5), (@_shot roll_settings (new_chat 0)).2) ∧
  ∃ fate w'',
    @_shot roll_settings (@_shot roll_settings (new_chat 0)).2 =
      (Ok (fate, 5 - 1), w'').
Proof.
  assert (HN : 1 ≤ @NUM_BULLETS roll_settings) by (simpl; lia).
  assert (Harmed : @armed roll_settings (new_chat 0))
    by (split; [reflexivity | left; reflexivity]).
  assert (Hshot : @_shot roll_settings (new_chat 0) =
                  (Ok (false, 5), (@_shot roll_settings (new_chat 0)).2))
    by (vm_compute; reflexivity).
  split; [exact HN|]. split; [exact Harmed|]. split; [exact Hshot|].
  exact (proj2 (proj2 (proj2
    (@shot_after_miss roll_settings (new_chat 0) _ 5 HN Harmed Hshot)))).
Defined.

(** X2: between shots, a hit reports a count between 0 and [N - 1], leaves
    a full barrel of [N] chambers behind, and, the unit [MUTE_MINUTES]
    being non-negative, earns a mute of at least one unit and at most [N]
    units. *)
Theorem hit_mute_bounds `{Settings} (w w' : World) (remained : Z) :
  1 ≤ NUM_BULLETS →
  0 ≤ MUTE_MINUTES →
  armed w →
  _shot w = (Ok (true, remained), w') →
  0 ≤ remained ≤ NUM_BULLETS - 1 ∧
  Py.len (chambers w') = NUM_BULLETS ∧
  MUTE_MINUTES ≤ get_mute_minutes remained ≤ MUTE_MINUTES * NUM_BULLETS.
Proof.
  intros HN HB Harmed Hhit.
  pose proof (hit_remained HN w w' remained Harmed Hhit) as Hr.
  split; [done|]. split.
  - destruct Harmed as [Hlock _].
    destruct (shot_run HN w Hlock) as (rest & fate & _ & Hshot).
    rewrite Hshot in Hhit. injection Hhit as -> _ <-.
    unfold chambers. simpl. rewrite lookup_insert_eq. simpl.
    by apply cylinder_length.
  - unfold get_mute_minutes. nia.
Qed.

Lemma hit_mute_bounds_witness :
  1 ≤ @NUM_BULLETS roll_settings ∧
  0 ≤ @MUTE_MINUTES roll_settings ∧
  @armed roll_settings (new_chat 5) ∧
  @_shot roll_settings (new_chat 5) =
    (Ok (true, 5), (@_shot roll_settings (new_chat 5)).2) ∧
  960 ≤ @get_mute_minutes roll_settings 5 ≤ 960 * 6.
Proof.
  assert (HN : 1 ≤ @NUM_BULLETS roll_settings) by (simpl; lia).
  assert (HB : 0 ≤ @MUTE_MINUTES roll_settings) by (simpl; lia).
  assert (Harmed : @armed roll_settings (new_chat 5))
    by (split; [reflexivity | left; reflexivity]).
  assert (Hshot : @_shot roll_settings (new_chat 5) =
                  (Ok (true, 5), (@_shot roll_settings (new_chat 5)).2))
    by (vm_compute; reflexivity).
  split; [exact HN|]. split; [exact HB|]. split; [exact Harmed|].
  split; [exact Hshot|].
  exact (proj2 (proj2
    (@hit_mute_bounds roll_settings (new_chat 5) _ 5 HN HB Harmed Hshot))).
Defined.

(** ** The miss narration *)

Lemma getitem_is_Some {A} (l : list A) (i : Z) :
  - Py.len l ≤ i < Py.len l → is_Some (Py.getitem l i).
Proof.
  intros Hi. unfold Py.getitem, Py.position.
  destruct (decide (0 ≤ i)) as [Hpos|Hneg].
  - replace ((0 <=? i) && (i <? Py.len l)) with true
      by (symmetry; apply andb_true_iff; lia).
    simpl. apply lookup_lt_is_Some. unfold Py.len in Hi. lia.
  - replace ((0 <=? i) && (i <? Py.len l)) with false
      by (symmetry; apply andb_false_iff; lia).
    replace ((- Py.len l <=? i) && (i <? 0)) with true
      by (symmetry; apply andb_true_iff; lia).
    simpl. apply lookup_lt_is_Some. unfold Py.len in *. lia.
Qed.

Lemma getitem_None {A} (l : list A) (i : Z) :
  ¬ (- Py.len l ≤ i < Py.len l) → Py.getitem l i = None.
Proof.
  intros Hi. unfold Py.getitem, Py.position.
  pose proof (len_nonneg l).
  replace ((0 <=? i) && (i <? Py.len l)) with false
    by (symmetry; apply andb_false_iff; lia).
  replace ((- Py.len l <=? i) && (i <? 0)) with false
    by (symmetry; apply andb_false_iff; lia).
  reflexivity.
Qed.

Lemma miss_string_returns `{Settings} (s : Z) :
  - 5 ≤ NUM_BULLETS - s - 1 ≤ 4 → ∃ text, get_miss_string s = Ok text.
Proof.
  intros Hi. unfold get_miss_string. cbv zeta.
  match goal with |- context [Py.getitem ?S ?i] =>
    destruct (getitem_is_Some S i) as [mood ->]
  end; [|by eexists].
  replace (Py.len ["😕"; "😟"; "😥"; "😫"; "😱"]) with 5 by reflexivity. lia.
Qed.

Lemma miss_string_index_error `{Settings} (s : Z) :
  ¬ (- 5 ≤ NUM_BULLETS - s - 1 ≤ 4) → get_miss_string s = Raise IndexError.
Proof.
  intros Hi. unfold get_miss_string. cbv zeta.
  rewrite getitem_None; [done|].
  replace (Py.len ["😕"; "😟"; "😥"; "😫"; "😱"]) with 5 by reflexivity. lia.
Qed.

(** X3: [get_miss_string] returns a text exactly when the mood index
    [NUM_BULLETS - shots_remain - 1] is one Python accepts for a list of
    five, that is from -5 to 4 (negative ones count from the end);
    otherwise it raises [IndexError].  With six chambers the counts it
    accepts are 1 to 10: 0 and below, and 11 and above, raise. *)
Theorem miss_string_raises `{Settings} (shots_remain : Z) :
  (- 5 ≤ NUM_BULLETS - shots_remain - 1 ≤ 4 →
     ∃ text, get_miss_string shots_remain = Ok text) ∧
  (¬ (- 5 ≤ NUM_BULLETS - shots_remain - 1 ≤ 4) →
     get_miss_string shots_remain = Raise IndexError) ∧
  ((∃ text, @get_miss_string roll_settings shots_remain = Ok text) ↔
   1 ≤ shots_remain ≤ 10).
Proof.
  split; [apply miss_string_returns|]. split; [apply miss_string_index_error|].
  split.
  - intros [text Htext].
    destruct (decide (1 ≤ shots_remain ≤ 10)) as [|Hout]; [done|].
    rewrite (@miss_string_index_error roll_settings) in Htext;
      [discriminate Htext | simpl; lia].
  - intros Hin. apply (@miss_string_returns roll_settings). simpl. lia.
Qed.

(** ** Histories of updates *)



Section HandlerSafety.
Context `{Settings}.
Hypothesis chambers_exist : 1 ≤ NUM_BULLETS.
Hypothesis moods_suffice : NUM_BULLETS ≤ 6.


End HandlerSafety.

Section HistoryFacts.
Context `{Settings}.
Hypothesis chambers_exist : 1 ≤ NUM_BULLETS.
Hypothesis moods_suffice : NUM_BULLETS ≤ 6.
Hypothesis unit_not_negative : 0 ≤ MUTE_MINUTES.




End HistoryFacts.







(** ** More of the collection *)

(** X6: [DB.miss] and [DB.dead] for an id that has no document return
    normally and leave the collection exactly as it was: no document is
    made and nothing is raised. *)
Theorem record_without_document (w : World) (uid mute_min : Z) :
  hussars w !! uid = None →
  (DB.miss uid w).1 = Ok () ∧
  hussars (DB.miss uid w).2 = hussars w ∧
  (DB.dead uid mute_min w).1 = Ok () ∧
  hussars (DB.dead uid mute_min w).2 = hussars w.
Proof.
  intros Hnone. rewrite miss_run, dead_run. simpl.
  assert (Hid : ∀ f : Hussar → Hussar, alter f uid (hussars w) = hussars w).
  { intros f. apply map_eq. intros k. destruct (decide (uid = k)) as [<-|Hne].
    - by rewrite lookup_alter_eq, Hnone.
    - by rewrite lookup_alter_ne. }
  by rewrite !Hid.
Qed.

Lemma record_without_document_witness :
  hussars (new_chat 0) !! 42 = None ∧
  hussars (DB.miss 42 (new_chat 0)).2 = hussars (new_chat 0) ∧
  hussars (DB.dead 42 960 (new_chat 0)).2 = hussars (new_chat 0).
Proof.
  split; [reflexivity|].
  destruct (record_without_document (new_chat 0) 42 960 eq_refl)
    as (_ & Hmiss & _ & Hdead).
  split; [exact Hmiss | exact Hdead].
Defined.

(** X7: whatever the collection holds, a second [DB.add] of the same user
    right after a first one raises [DuplicateKeyError] and leaves the
    collection as the first one left it; in particular it resets no
    counter. *)
Theorem add_twice_raises (user : User) (w : World) :
  (DB.add user (DB.add user w).2).1 = Raise DuplicateKeyError ∧
  hussars (DB.add user (DB.add user w).2).2 = hussars (DB.add user w).2.
Proof.
  assert (Hthere : is_Some (hussars (DB.add user w).2 !! user_id user)).
  { rewrite add_run. destruct (hussars w !! user_id user) eqn:Hu; simpl.
    - by rewrite Hu.
    - by rewrite lookup_insert_eq. }
  destruct Hthere as [h Hh].
  rewrite (add_run user (DB.add user w).2), Hh. done.
Qed.

Lemma add_run_clock (user : User) (w : World) :
  clock (DB.add user w).2 = clock w ∧ ticks (DB.add user w).2 = S (ticks w).
Proof. rewrite add_run. by destruct (hussars w !! user_id user). Qed.

Lemma ledger_op_timely (op : LedgerOp) (w : World) :
  (∀ i j, (i ≤ j)%nat → clock w i ≤ clock w j) →
  timely w →
  timely (ledger_op op w).2 ∧ clock (ledger_op op w).2 = clock w.
Proof.
  intros Hmono Hw.
  pose proof (Hmono (ticks w) (S (ticks w)) ltac:(lia)) as Hnext.
  assert (Halter : ∀ (f : Hussar → Hussar) uid,
    (∀ h, first_shot (f h) = first_shot h ∧ last_shot (f h) = clock w (ticks w)) →
    timely (with_hussars (alter f uid (hussars w)) (with_ticks (S (ticks w)) w))).
  { intros f uid Hf uid' h'. simpl. destruct (decide (uid = uid')) as [<-|Hne].
    - rewrite lookup_alter_eq. destruct (hussars w !! uid) as [h|] eqn:Hh; [|done].
      simpl. intros [= <-]. destruct (Hf h) as [-> ->].
      destruct (Hw uid h Hh). lia.
    - rewrite lookup_alter_ne by done. intros Hh'.
      destruct (Hw uid' h' Hh'). lia. }
  destruct op as [user|uid|uid mute_min]; unfold ledger_op.
  - split; [|apply add_run_clock].
    rewrite add_run. destruct (hussars w !! user_id user) eqn:Hu; simpl.
    + intros uid' h' Hh'. simpl in *. destruct (Hw uid' h' Hh'). lia.
    + intros uid' h'. simpl. destruct (decide (user_id user = uid')) as [<-|Hne].
      * rewrite lookup_insert_eq. intros [= <-]. simpl. lia.
      * rewrite lookup_insert_ne by done. intros Hh'.
        destruct (Hw uid' h' Hh'). lia.
  - rewrite miss_run. cbn [snd]. split; [|done]. by apply Halter.
  - rewrite dead_run. cbn [snd]. split; [|done]. by apply Halter.
Qed.

(** X8: when the readings of [datetime.now()] never go back, every history
    of [DB.add], [DB.miss] and [DB.dead] calls keeps the timestamps of
    every document in order: [first_shot] is never later than
    [last_shot]. *)
Theorem timestamps_in_order (ops : list LedgerOp) (w : World) :
  (∀ i j, (i ≤ j)%nat → clock w i ≤ clock w j) →
  timely w →
  ∀ uid h, hussars (ledger_run ops w) !! uid = Some h →
    first_shot h ≤ last_shot h.
Proof.
  intros Hmono Hw.
  assert (Hrun : timely (ledger_run ops w)).
  { revert w Hmono Hw. induction ops as [|op ops IH]; intros w Hmono Hw; [done|].
    destruct (ledger_op_timely op w Hmono Hw) as [Hw' Hclock].
    simpl. apply IH; [by rewrite Hclock | done]. }
  intros uid h Hh. by destruct (Hrun uid h Hh).
Qed.

Lemma timestamps_in_order_witness :
  (∀ i j, (i ≤ j)%nat → clock (new_chat 0) i ≤ clock (new_chat 0) j) ∧
  timely (new_chat 0) ∧
  ∀ uid h,
    hussars (ledger_run [Register bob; RecordMiss 42; RecordDeath 42 960]
               (new_chat 0)) !! uid = Some h →
    first_shot h ≤ last_shot h.
Proof.
  assert (Hmono : ∀ i j, (i ≤ j)%nat → clock (new_chat 0) i ≤ clock (new_chat 0) j)
    by (intros i j Hij; simpl; lia).
  assert (Hw : timely (new_chat 0)).
  { intros uid h Hh. simpl in Hh. by rewrite lookup_empty in Hh. }
  split; [exact Hmono|]. split; [exact Hw|].
  exact (timestamps_in_order _ (new_chat 0) Hmono Hw).
Defined.

Lemma remove_run (uid : Z) (w : World) :
  DB.remove uid w = (Ok (), with_hussars (delete uid (hussars w)) w).
Proof. reflexivity. Qed.

(** X9: [DB.remove] erases the document of the id and no other, does
    nothing to a collection without one (so removing twice is removing
    once), and a [DB.add] right after it always succeeds with all counters
    and the time in the club at zero, whatever the player's record was. *)
Theorem remove_then_add (user : User) (w : World) :
  (DB.remove (user_id user) w).1 = Ok () ∧
  hussars (DB.remove (user_id user) w).2 !! user_id user = None ∧
  (∀ other, other ≠ user_id user →
     hussars (DB.remove (user_id user) w).2 !! other = hussars w !! other) ∧
  (hussars w !! user_id user = None →
     hussars (DB.remove (user_id user) w).2 = hussars w) ∧
  hussars (DB.remove (user_id user) (DB.remove (user_id user) w).2).2 =
    hussars (DB.remove (user_id user) w).2 ∧
  (DB.add user (DB.remove (user_id user) w).2).1 = Ok () ∧
  ∃ h, hussars (DB.add user (DB.remove (user_id user) w).2).2 !! user_id user =
         Some h ∧
       shot_counter h = 0 ∧ miss_counter h = 0 ∧ dead_counter h = 0 ∧
       total_time_in_club h = 0 ∧ first_shot h = last_shot h ∧
       meta h = to_dict user.
Proof.
  rewrite !remove_run. cbn [fst snd hussars with_hussars].
  split; [done|]. split; [apply lookup_delete_eq|].
  split; [intros other Hne; by apply lookup_delete_ne|].
  split; [apply delete_id|].
  split; [apply delete_id, lookup_delete_eq|].
  rewrite add_run. cbn [hussars with_hussars]. rewrite lookup_delete_eq.
  split; [done|]. simpl. rewrite lookup_insert_eq. by eexists.
Qed.

Lemma longer_in_club_total : Total longer_in_club.
Proof. intros a b. unfold longer_in_club. lia. Qed.

Lemma longer_in_club_trans : Transitive longer_in_club.
Proof. intros a b c. unfold longer_in_club. lia. Qed.

(** X10: [DB.find_all] changes nothing and returns every document of the
    collection exactly once, each under its own [_id], ordered so that no
    document comes before one with a longer time in the club. *)
Theorem find_all_ranked (w : World) :
  ∃ l,
    DB.find_all w = (Ok l, w) ∧
    StronglySorted longer_in_club l ∧
    l ≡ₚ map_to_list (hussars w) ∧
    (∀ uid h, (uid, h) ∈ l ↔ hussars w !! uid = Some h) ∧
    NoDup (l.*1) ∧
    length l = size (hussars w) ∧
    ∀ i j a b, (i < j)%nat → l !! i = Some a → l !! j = Some b →
      total_time_in_club b.2 ≤ total_time_in_club a.2.
Proof.
  pose proof longer_in_club_total as Htotal.
  pose proof longer_in_club_trans as Htrans.
  exists (merge_sort longer_in_club (map_to_list (hussars w))).
  pose proof (merge_sort_Permutation longer_in_club (map_to_list (hussars w)))
    as Hperm.
  pose proof (StronglySorted_merge_sort longer_in_club (map_to_list (hussars w)))
    as Hsorted.
  split; [reflexivity|]. split; [done|]. split; [done|]. split.
  { intros uid h. rewrite Hperm. apply elem_of_map_to_list. }
  split; [rewrite Hperm; apply NoDup_fst_map_to_list|].
  split; [rewrite Hperm; apply length_map_to_list|].
  revert Hsorted. generalize (merge_sort longer_in_club (map_to_list (hussars w))).
  clear. intros l Hsorted. induction Hsorted as [|x l _ IH Hall];
    intros i j a b Hij Hi Hj; [done|].
  destruct j as [|j]; [lia|]. simpl in Hj. destruct i as [|i]; simpl in Hi.
  - injection Hi as <-. rewrite Forall_forall in Hall.
    apply (Hall b). by eapply list_elem_of_lookup_2.
  - apply (IH i j a b); [lia|done..].
Qed.

(** ** Names on the leader board *)

Lemma truthy_spec (o : option string) :
  truthy o = true ↔ ∃ s, o = Some s ∧ s ≠ "".
Proof.
  unfold truthy. destruct o as [s|].
  - rewrite negb_true_iff. split.
    + intros Hs. exists s. split; [done|]. by apply String.eqb_neq.
    + intros (s' & [= <-] & Hs). by apply String.eqb_neq.
  - split; [done | by intros (? & ? & _)].
Qed.

(** X11: [_get_username] never returns the empty string.  It returns the
    username when there is one that is not empty; otherwise the first and
    last names that are present, joined by a space; and ["unknown"] when
    that is empty too (no names, or a single empty one). *)
Theorem username_never_empty (h : Hussar) :
  _get_username h ≠ "" ∧
  (∀ u, meta h !! "username" = Some u → u ≠ "" → _get_username h = u) ∧
  (truthy (meta h !! "username") = false →
   match meta h !! "first_name", meta h !! "last_name" with
   | Some f, Some l => _get_username h = f +:+ " " +:+ l
   | Some n, None | None, Some n =>
       _get_username h = if String.eqb n "" then "unknown" else n
   | None, None => _get_username h = "unknown"
   end).
Proof.
  unfold _get_username. cbv zeta. split; [|split].
  - destruct (truthy (meta h !! "username")) eqn:Hu.
    + apply truthy_spec in Hu as (u & -> & Hne). done.
    + match goal with |- context [String.eqb ?j ""] =>
        destruct (String.eqb j "") eqn:Hj
      end; [done | by apply String.eqb_neq].
  - intros u Hu Hne.
    replace (truthy (meta h !! "username")) with true; [by rewrite Hu|].
    symmetry. apply truthy_spec. by exists u.
  - intros ->.
    destruct (meta h !! "first_name") as [f|], (meta h !! "last_name") as [l|];
      simpl; try reflexivity.
    replace (String.eqb (f +:+ " " +:+ l) "") with false; [done|].
    symmetry. apply String.eqb_neq. by destruct f.
Qed.

(** ** More on shots running side by side *)

Lemma holding_find (ts : list (Z * Pc)) :
  (1 ≤ holding ts)%nat → ∃ j c, ts !! j = Some (c, Holding).
Proof.
  unfold holding. induction ts as [|[c pc] ts IH]; simpl; [lia|].
  rewrite filter_cons. destruct (decide (is_holding (c, pc) = true)) as [Hh|Hh].
  - intros _. exists 0%nat, c. destruct pc; try discriminate Hh. done.
  - intros Hpos. destruct (IH Hpos) as (j & c' & Hj). by exists (S j), c'.
Qed.

Section ThreadProgress.
Context `{Settings}.
Hypothesis chambers_exist : 1 ≤ NUM_BULLETS.

Lemma shot_holding_returns (w : World) :
  barrel_lock w = true →
  ∃ fate n w', _shot_holding w = (Ok (fate, n), w') ∧ barrel_lock w' = false.
Proof.
  intros Hheld.
  assert (Hw : w = with_barrel_lock true (with_barrel_lock false w)).
  { destruct w. simpl in Hheld. by subst. }
  destruct (shot_run chambers_exist (with_barrel_lock false w) eq_refl)
    as (rest & fate & _ & Hshot).
  pose proof (shot_frame chambers_exist (with_barrel_lock false w) eq_refl)
    as (_ & _ & Hfree).
  rewrite Hshot in Hfree. cbn [snd] in Hfree.
  unfold _shot, acquire, mbind, M_bind in Hshot. simpl in Hshot.
  rewrite <- Hw in Hshot. eauto.
Qed.

(** No finished thread has raised or is stuck. *)
Lemma step_all_returned (p p' : Process) :
  lock_counts p →
  (∀ i c r, threads p !! i = Some (c, Finished r) → ∃ fate n, r = Ok (fate, n)) →
  step p p' →
  ∀ i c r, threads p' !! i = Some (c, Finished r) → ∃ fate n, r = Ok (fate, n).
Proof.
  intros Hinv Hret Hmove. inversion Hmove as [j q q' Hstep]; subst q q'.
  unfold step_thread in Hstep.
  destruct (threads p !! j) as [[cj [| |rj]]|] eqn:Hj; [| |done..].
  - unfold acquire in Hstep. simpl in Hstep.
    destruct (barrel_lock (shared p)); [done|]. injection Hstep as <-. simpl.
    intros i c r Hi. destruct (decide (i = j)) as [->|Hne].
    + rewrite list_lookup_insert_eq in Hi by (by eapply lookup_lt_Some).
      discriminate Hi.
    + rewrite list_lookup_insert_ne in Hi by done. by eapply Hret.
  - assert (Hheld : barrel_lock (enter cj p) = true).
    { simpl. unfold lock_counts in Hinv.
      pose proof (holding_some _ j cj Hj) as Hpos.
      destruct (barrel_lock (shared p)); [done|]. simpl in Hinv. lia. }
    destruct (shot_holding_returns _ Hheld) as (fate & n & w' & Hrun & _).
    rewrite Hrun in Hstep. injection Hstep as <-. simpl.
    intros i c r Hi. destruct (decide (i = j)) as [->|Hne].
    + rewrite list_lookup_insert_eq in Hi by (by eapply lookup_lt_Some).
      injection Hi as _ <-. eauto.
    + rewrite list_lookup_insert_ne in Hi by done. by eapply Hret.
Qed.

Lemma run_all_returned (p0 p : Process) :
  initial p0 → rtc step p0 p →
  ∀ i c r, threads p !! i = Some (c, Finished r) → ∃ fate n, r = Ok (fate, n).
Proof.
  intros Hinit Hrun. revert p Hrun.
  apply (rtc_ind_r (λ p, ∀ i c r, threads p !! i = Some (c, Finished r) →
                           ∃ (fate : bool) (n : Z), r = Ok (fate, n)) p0).
  - intros i c r Hi. destruct Hinit as [_ Hwait].
    rewrite Forall_lookup in Hwait. specialize (Hwait i _ Hi). done.
  - intros p1 p Hrun Hstep IH. apply (step_all_returned p1 p); [|done..].
    by eapply (run_lock_counts chambers_exist).
Qed.

End ThreadProgress.

(** X12: shots running side by side never deadlock and never fail.  In
    every state reachable from a start with the lock free, each call of
    [_shot] that is over has returned a fate and a count (none raised,
    none is stuck), and as long as some call is not over, some thread can
    move. *)
Theorem shots_never_deadlock `{Settings} (p0 p : Process) :
  1 ≤ NUM_BULLETS →
  initial p0 →
  rtc step p0 p →
  (∀ i c r, threads p !! i = Some (c, Finished r) → ∃ fate n, r = Ok (fate, n)) ∧
  (∀ i c pc, threads p !! i = Some (c, pc) → pc = Waiting ∨ pc = Holding →
     ∃ p', step p p').
Proof.
  intros HN Hinit Hrun. split; [by apply (run_all_returned HN p0)|].
  pose proof (run_lock_counts HN p0 p Hinit Hrun) as Hinv.
  unfold lock_counts in Hinv.
  intros i c pc Hi Hpc.
  destruct (barrel_lock (shared p)) eqn:Hlk; simpl in Hinv.
  - destruct (holding_find (threads p)) as (j & cj & Hj); [lia|].
    destruct (step_thread j p) as [p'|] eqn:Hstep.
    + exists p'. by eapply step_of.
    + unfold step_thread in Hstep. rewrite Hj in Hstep.
      by destruct (_shot_holding (enter cj p)).
  - destruct Hpc as [-> | ->].
    + destruct (proj2 (waiting_moves i c p Hi) Hlk) as [p' Hstep].
      exists p'. by eapply step_of.
    + pose proof (holding_some _ i c Hi). lia.
Qed.

Lemma shots_never_deadlock_witness :
  1 ≤ @NUM_BULLETS roll_settings ∧
  initial two_chats ∧
  rtc (@step roll_settings) two_chats chat1_holds ∧
  ∃ p', @step roll_settings chat1_holds p'.
Proof.
  assert (HN : 1 ≤ @NUM_BULLETS roll_settings) by (simpl; lia).
  assert (Hinit : initial two_chats)
    by (split; [reflexivity | repeat constructor]).
  assert (Hrun : rtc (@step roll_settings) two_chats chat1_holds).
  { apply rtc_once. apply (step_of 0). vm_compute. reflexivity. }
  split; [exact HN|]. split; [exact Hinit|]. split; [exact Hrun|].
  exact (proj2 (@shots_never_deadlock roll_settings two_chats chat1_holds
                  HN Hinit Hrun) 1%nat 2 Waiting eq_refl (or_introl eq_refl)).
Defined.

Section SerialFacts.
Context `{Settings}.
Hypothesis chambers_exist : 1 ≤ NUM_BULLETS.

(** The two moves of a waiting thread, taken together while the lock is
    free, are one plain call of [_shot] in the world of its chat. *)
Lemma shoot_is_shot (i : nat) (c : Z) (q : Process) :
  threads q !! i = Some (c, Waiting) →
  barrel_lock (shared q) = false →
  shoot i q =
    Some (leave c i (Finished (_shot (enter c q)).1) (_shot (enter c q)).2 q).
Proof.
  intros Hi Hfree.
  assert (Hlen : (i < length (threads q))%nat) by (by eapply lookup_lt_Some).
  unfold shoot, step_thread at 2. rewrite Hi. unfold acquire.
  replace (barrel_lock (enter c q)) with false by (by simpl).
  simpl. unfold step_thread. simpl.
  rewrite list_lookup_insert_eq by done. unfold enter at 1. simpl.
  rewrite lookup_insert_eq. simpl.
  assert (Hshot : _shot (enter c q) =
                  _shot_holding (with_barrel_lock true (enter c q))).
  { unfold _shot, acquire, mbind, M_bind.
    replace (barrel_lock (enter c q)) with false by (by simpl). done. }
  rewrite Hshot.
  change (with_chat_data _ (with_barrel_lock true (enter c q)))
    with (with_barrel_lock true (enter c q)).
  destruct (_shot_holding (with_barrel_lock true (enter c q))) as [r w].
  unfold leave. simpl. by rewrite insert_insert_eq, list_insert_insert_eq.
Qed.

(** What a run has reached: the state after some threads shot one after
    another, or that state with one more thread past [acquire]. *)
Lemma run_serial (p0 p : Process) :
  initial p0 → rtc step p0 p →
  ∃ order,
    (shoot_in_order order p0 = Some p ∧ barrel_lock (shared p) = false) ∨
    (∃ q i c,
       shoot_in_order order p0 = Some q ∧ barrel_lock (shared q) = false ∧
       threads q !! i = Some (c, Waiting) ∧ step_thread i q = Some p ∧
       barrel_lock (shared p) = true).
Proof.
  intros Hinit Hrun. revert p Hrun.
  apply (rtc_ind_r (λ p, ∃ order,
    (shoot_in_order order p0 = Some p ∧ barrel_lock (shared p) = false) ∨
    (∃ q i c,
       shoot_in_order order p0 = Some q ∧ barrel_lock (shared q) = false ∧
       threads q !! i = Some (c, Waiting) ∧ step_thread i q = Some p ∧
       barrel_lock (shared p) = true)) p0).
  { exists []. left. split; [done | by destruct Hinit]. }
  intros p1 p Hrun Hmove [order IH].
  pose proof (run_lock_counts chambers_exist p0 p1 Hinit Hrun) as Hinv.
  unfold lock_counts in Hinv.
  inversion Hmove as [j q q' Hstep]; subst q q'.
  destruct IH as [[Hseq Hfree] | (q & i & c & Hseq & Hfree & Hi & Hacq & Hheld)].
  - (* from a serial state only an acquire is possible *)
    rewrite Hfree in Hinv. simpl in Hinv.
    destruct (threads p1 !! j) as [[cj [| |rj]]|] eqn:Hj.
    + exists order. right. exists p1, j, cj. repeat split; try done.
      unfold step_thread in Hstep. rewrite Hj in Hstep. unfold acquire in Hstep.
      simpl in Hstep. rewrite Hfree in Hstep. injection Hstep as <-. done.
    + pose proof (holding_some _ j cj Hj). lia.
    + unfold step_thread in Hstep. by rewrite Hj in Hstep.
    + unfold step_thread in Hstep. by rewrite Hj in Hstep.
  - (* with the lock held only its holder moves, and ends its shot *)
    assert (Hp1 : threads p1 = <[i:=(c, Holding)]> (threads q)).
    { unfold step_thread in Hacq. rewrite Hi in Hacq. unfold acquire in Hacq.
      simpl in Hacq. rewrite Hfree in Hacq. by injection Hacq as <-. }
    assert (Hq0 : holding (threads q) = 0%nat).
    { pose proof (holding_insert _ i _ (c, Holding) Hi) as Hcount.
      rewrite <- Hp1, Hinv, Hheld in Hcount. simpl in Hcount. lia. }
    assert (Hji : j = i).
    { destruct (decide (j = i)) as [|Hne]; [done|]. exfalso.
      unfold step_thread in Hstep. rewrite Hp1 in Hstep.
      rewrite list_lookup_insert_ne in Hstep by done.
      destruct (threads q !! j) as [[cj [| |rj]]|] eqn:Hj; [| |done..].
      - unfold acquire in Hstep. simpl in Hstep. by rewrite Hheld in Hstep.
      - pose proof (holding_some _ j cj Hj). lia. }
    subst j. exists (order ++ [i]). left.
    assert (Hshoot : shoot i q = Some p).
    { unfold shoot. by rewrite Hacq. }
    split.
    + unfold shoot_in_order in *. by rewrite foldl_snoc, Hseq.
    + unfold step_thread in Hstep. rewrite Hp1 in Hstep.
      rewrite list_lookup_insert_eq in Hstep by (by eapply lookup_lt_Some).
      pose proof (shot_holding_releases chambers_exist (enter c p1)) as Hrel.
      destruct (_shot_holding (enter c p1)) as [r w].
      injection Hstep as <-. simpl. apply Hrel. by simpl.
Qed.

End SerialFacts.

(** X13: the lock makes shots that run side by side equivalent to shots
    made one after another.  Every state a run reaches while the lock is
    free is the state after some of the threads made their whole call of
    [_shot] one at a time, in some order; while the lock is held it is
    such a state with one more thread past [acquire].  A whole call made
    that way is a plain [_shot] in the world of the thread's chat: its
    result goes to the thread, its barrel to that chat. *)
Theorem shots_serialize `{Settings} (p0 p : Process) :
  1 ≤ NUM_BULLETS →
  initial p0 →
  rtc step p0 p →
  (barrel_lock (shared p) = false → ∃ order, shoot_in_order order p0 = Some p) ∧
  (barrel_lock (shared p) = true →
     ∃ order q i c,
       shoot_in_order order p0 = Some q ∧
       threads q !! i = Some (c, Waiting) ∧ step_thread i q = Some p) ∧
  (∀ q i c, threads q !! i = Some (c, Waiting) → barrel_lock (shared q) = false →
     shoot i q =
       Some (leave c i (Finished (_shot (enter c q)).1) (_shot (enter c q)).2 q)).
Proof.
  intros HN Hinit Hrun.
  destruct (run_serial HN p0 p Hinit Hrun) as
    [order [[Hseq Hfree] | (q & i & c & Hseq & _ & Hi & Hacq & Hheld)]].
  - split; [by exists order|]. split; [congruence|].
    intros q i c. apply shoot_is_shot.
  - split; [congruence|]. split; [by exists order, q, i, c|].
    intros q' i' c'. apply shoot_is_shot.
Qed.

Lemma shots_serialize_witness :
  1 ≤ @NUM_BULLETS roll_settings ∧
  initial two_chats ∧
  rtc (@step roll_settings) two_chats chat1_holds ∧
  barrel_lock (shared chat1_holds) = true ∧
  ∃ order q i c,
    @shoot_in_order roll_settings order two_chats = Some q ∧
    threads q !! i = Some (c, Waiting) ∧
    @step_thread roll_settings i q = Some chat1_holds.
Proof.
  assert (HN : 1 ≤ @NUM_BULLETS roll_settings) by (simpl; lia).
  assert (Hinit : initial two_chats)
    by (split; [reflexivity | repeat constructor]).
  assert (Hrun : rtc (@step roll_settings) two_chats chat1_holds).
  { apply rtc_once. apply (step_of 0). vm_compute. reflexivity. }
  split; [exact HN|]. split; [exact Hinit|]. split; [exact Hrun|].
  split; [reflexivity|].
  exact (proj1 (proj2 (@shots_serialize roll_settings two_chats chat1_holds
                         HN Hinit Hrun)) eq_refl).
Defined.

(** ** What a shot leaves alone *)

(** X14: a call of [_shot] changes nothing of the chat's [chat_data] but
    the entry ["barrel"], nothing of the collection, of the requests to
    the bot or of the clock, and draws at most two random numbers. *)
Theorem shot_touches_only_barrel `{Settings} (w : World) :
  1 ≤ NUM_BULLETS →
  barrel_lock w = false →
  (∀ key, key ≠ "barrel" → chat_data (_shot w).2 !! key = chat_data w !! key) ∧
  hussars (_shot w).2 = hussars w ∧
  outbox (_shot w).2 = outbox w ∧
  ticks (_shot w).2 = ticks w ∧
  dice (_shot w).2 = dice w ∧
  (drawn w ≤ drawn (_shot w).2 ≤ drawn w + 2)%nat.
Proof.
  intros HN Hlock.
  destruct (shot_run HN w Hlock) as (rest & fate & _ & ->). cbn [snd].
  unfold firing. split.
  - intros key Hkey.
    destruct fate, (needs_reload w); simpl;
      repeat (rewrite lookup_insert_ne by done); reflexivity.
  - destruct fate, (needs_reload w); simpl; repeat split; lia.
Qed.

Lemma shot_touches_only_barrel_witness :
  1 ≤ @NUM_BULLETS roll_settings ∧
  barrel_lock registered = false ∧
  hussars (@_shot roll_settings registered).2 = hussars registered ∧
  outbox (@_shot roll_settings registered).2 = outbox registered.
Proof.
  assert (HN : 1 ≤ @NUM_BULLETS roll_settings) by (simpl; lia).
  assert (Hlock : barrel_lock registered = false) by (vm_compute; reflexivity).
  split; [exact HN|]. split; [exact Hlock|].
  destruct (@shot_touches_only_barrel roll_settings registered HN Hlock)
    as (_ & Hhs & Hob & _).
  split; [exact Hhs | exact Hob].
Defined.
